(** * The encrypted vault routes of the MERN password manager

    A shallow embedding of [routes/vault.js] and [models/VaultItem.js]:
    the Mongo collection of vault items is an explicit store threaded
    through the route handlers, every handler returns the JSON response it
    sends together with the new store, and the two external engines the
    routes call (the regular-expression engine behind [$regex] and
    [bcrypt.compare]) are section variables.

    Strings are sequences of code units below 256; timestamps are
    milliseconds as [Z]; object ids are the successive values of a
    generator kept in the store.  The model describes runs in which the
    database answers: the [catch] branches (status 500) are reached only
    through the errors the handlers can raise on their own, which are a
    schema validation error in [save] and a pattern that does not compile
    in the search route. *)

From Stdlib Require Import List ZArith String Ascii Bool Arith Lia.
From Stdlib Require Import Sorted Permutation.
Import ListNotations.

Local Open Scope string_scope.
Local Open Scope Z_scope.

(** ** JavaScript strings *)

(** [WhiteSpace] and [LineTerminator] code units below 256, the characters
    [String.prototype.trim] removes: TAB, LF, VT, FF, CR, SP and NBSP. *)
Definition isWhiteSpace (c : ascii) : bool :=
  let n := nat_of_ascii c in
  ((9 <=? n)%nat && (n <=? 13)%nat) || (n =? 32)%nat || (n =? 160)%nat.

Fixpoint trimStart (s : string) : string :=
  match s with
  | EmptyString => EmptyString
  | String c s' => if isWhiteSpace c then trimStart s' else s
  end.

Fixpoint trimEnd (s : string) : string :=
  match s with
  | EmptyString => EmptyString
  | String c s' =>
      match trimEnd s' with
      | EmptyString => if isWhiteSpace c then EmptyString else String c EmptyString
      | t => String c t
      end
  end.

(** [s.trim()] *)
Definition trim (s : string) : string := trimEnd (trimStart s).

(** [!v] for a value that is [undefined] or a string. *)
Definition falsy (v : option string) : bool :=
  match v with
  | None => true
  | Some s => String.eqb s ""
  end.

(** The case folding of the [i] option on code units below 256: the
    capitals A to Z and the Latin-1 capitals from 192 to 222, the
    multiplication sign 215 apart, fold to the small letter 32 above;
    every other code unit, the sharp s, the micro sign and the y with
    diaeresis among them, stands for itself. *)
Definition fold_case (c : ascii) : ascii :=
  let n := nat_of_ascii c in
  if ((65 <=? n)%nat && (n <=? 90)%nat)%bool
     || ((192 <=? n)%nat && (n <=? 222)%nat && negb (n =? 215)%nat)%bool
  then ascii_of_nat (n + 32) else c.

Fixpoint lower (s : string) : string :=
  match s with
  | EmptyString => EmptyString
  | String c s' => String (fold_case c) (lower s')
  end.

(** ** models/VaultItem.js *)

Definition ObjectId := nat.
Bind Scope nat_scope with ObjectId.

(** A document of the [VaultItem] model; [createdAt] and [updatedAt] are
    the two fields added by [timestamps: true]. *)
Record VaultItem := mkVaultItem {
  _id : ObjectId;
  userId : ObjectId;
  title : string;
  encryptedData : string;
  iv : string;
  tags : list string;
  createdAt : Z;
  updatedAt : Z
}.

(** The collection in its natural order, and the object id generator. *)
Record Store := mkStore {
  docs : list VaultItem;
  nextId : ObjectId
}.

(** [required: true] on a [String] path: the value must be a non-empty
    string. *)
Definition checkRequired (s : string) : bool := negb (String.eqb s "").

(** Schema validation run by [save]: the three required string paths
    ([userId] is required as well and is always an object id here). *)
Definition validateSync (d : VaultItem) : bool :=
  checkRequired (title d) && checkRequired (encryptedData d) && checkRequired (iv d).

(** [.sort({ createdAt: -1 })]: a stable sort on descending [createdAt]. *)
Fixpoint insert_desc (x : VaultItem) (l : list VaultItem) : list VaultItem :=
  match l with
  | [] => [x]
  | y :: l' =>
      if createdAt y <=? createdAt x then x :: l else y :: insert_desc x l'
  end.

Definition sort_desc (l : list VaultItem) : list VaultItem :=
  fold_right insert_desc [] l.

(** [VaultItem.find({ userId }).sort({ createdAt: -1 })] *)
Definition find_by_user (st : Store) (uid : ObjectId) : list VaultItem :=
  sort_desc (filter (fun d => (userId d =? uid)%nat) (docs st)).

(** [VaultItem.findOne({ _id, userId })] *)
Definition findOne (st : Store) (itemId uid : ObjectId) : option VaultItem :=
  find (fun d => (_id d =? itemId)%nat && (userId d =? uid)%nat) (docs st).

(** [new VaultItem({...})] followed by [save()]: the document takes the next
    object id, [save] validates it against the schema, stamps both
    timestamps with the current time and inserts it.  [None] is the
    validation error [save] throws. *)
Definition create (st : Store) (now : Z) (uid : ObjectId)
    (t e i : string) (tg : list string) : option (Store * VaultItem) :=
  let d := mkVaultItem (nextId st) uid t e i tg now now in
  if validateSync d
  then Some (mkStore (docs st ++ [d]) (S (nextId st)), d)
  else None.

Definition string_list_eqb (a b : list string) : bool :=
  if list_eq_dec string_dec a b then true else false.

(** The paths marked modified by the four assignments of the update route:
    an assignment of an equal value does not mark its path. *)
Definition isModified (old : VaultItem) (t e i : string) (tg : list string) : bool :=
  negb (String.eqb (title old) t && String.eqb (encryptedData old) e
        && String.eqb (iv old) i && string_list_eqb (tags old) tg).

Fixpoint replace_doc (d : VaultItem) (l : list VaultItem) : list VaultItem :=
  match l with
  | [] => []
  | y :: l' => if (_id y =? _id d)%nat then d :: l' else y :: replace_doc d l'
  end.

(** [save()] on a document loaded by [findOne] after the four assignments.
    The timestamps hook sets [updatedAt] only when a path is modified, and
    a document without modified paths is not written. *)
Definition save (st : Store) (now : Z) (old : VaultItem)
    (t e i : string) (tg : list string) : option (Store * VaultItem) :=
  if isModified old t e i tg then
    let d := mkVaultItem (_id old) (userId old) t e i tg (createdAt old) now in
    if validateSync d
    then Some (mkStore (replace_doc d (docs st)) (nextId st), d)
    else None
  else Some (st, old).

Fixpoint remove_first (f : VaultItem -> bool) (l : list VaultItem) : list VaultItem :=
  match l with
  | [] => []
  | y :: l' => if f y then l' else y :: remove_first f l'
  end.

(** [VaultItem.findOneAndDelete({ _id, userId })] *)
Definition findOneAndDelete (st : Store) (itemId uid : ObjectId)
    : Store * option VaultItem :=
  let f := fun d => (_id d =? itemId)%nat && (userId d =? uid)%nat in
  match find f (docs st) with
  | Some d => (mkStore (remove_first f (docs st)) (nextId st), Some d)
  | None => (st, None)
  end.

(** ** Requests and responses *)

(** The JSON body of a create or update request; an absent key is [None]. *)
Record ReqBody := mkReqBody {
  b_title : option string;
  b_encryptedData : option string;
  b_iv : option string;
  b_tags : option (list string)
}.

(** What [res.status(..).json({...})] sends. *)
Record Response := mkResponse {
  status : nat;
  success : bool;
  message : option string;
  item : option VaultItem;
  items : option (list VaultItem)
}.

Definition json_items (l : list VaultItem) : Response :=
  mkResponse 200 true None None (Some l).

Definition json_item (code : nat) (msg : string) (d : VaultItem) : Response :=
  mkResponse code true (Some msg) (Some d) None.

Definition json_message (code : nat) (ok : bool) (msg : string) : Response :=
  mkResponse code ok (Some msg) None None.

(** ** express-validator *)

(** [body(field).notEmpty()]: the field, turned into a string ([undefined]
    becomes the empty string), must not be empty. *)
Definition notEmpty (field : ReqBody -> option string) (b : ReqBody) : bool :=
  match field b with
  | None => false
  | Some s => negb (String.eqb s "")
  end.

(** [validationResult(req)]: the validators of the chain that failed. *)
Definition validationResult (chain : list (ReqBody -> bool)) (b : ReqBody)
    : list (ReqBody -> bool) :=
  filter (fun v => negb (v b)) chain.

Definition isEmpty {A : Type} (l : list A) : bool :=
  match l with [] => true | _ => false end.

(** [tags || []] *)
Definition or_empty (tg : option (list string)) : list string :=
  match tg with Some l => l | None => [] end.

(** The value of a body field that passed [notEmpty]. *)
Definition field_value (v : option string) : string :=
  match v with Some s => s | None => "" end.

(** ** The account entity *)

(** Modelled from the spec: [models/user.js] is the account storage, an
    external collaborator; of an account the vault routes read only the
    stored master-key verifier, a one-way salted hash of the master key
    chosen at account setup. *)
Record User := mkUser {
  masterKey : string
}.

(** ** routes/vault.js *)

Section Routes.

(** [new RegExp(pattern, 'i')] and [{ $regex: pattern, $options: 'i' }]:
    [None] when the pattern does not compile, otherwise the unanchored,
    case-insensitive test of a subject string. *)
Variable RegExp_i : string -> option (string -> bool).

(** [bcrypt.compare(data, hash)] *)
Variable bcrypt_compare : string -> string -> bool.

(** [User.findById] *)
Variable users : ObjectId -> option User.

(** [router.get('/items')] *)
Definition get_items (st : Store) (uid : ObjectId) : Response :=
  json_items (find_by_user st uid).

(** The validation chain of [router.post('/items')]. *)
Definition post_items_chain : list (ReqBody -> bool) :=
  [notEmpty b_title; notEmpty b_encryptedData; notEmpty b_iv].

(** [router.post('/items')] *)
Definition post_items (st : Store) (now : Z) (uid : ObjectId) (b : ReqBody)
    : Store * Response :=
  let errors := validationResult post_items_chain b in
  if negb (isEmpty errors) then
    (st, json_message 400 false "Validation failed")
  else
    match create st now uid (field_value (b_title b))
            (field_value (b_encryptedData b)) (field_value (b_iv b))
            (or_empty (b_tags b)) with
    | Some (st', vaultItem) =>
        (st', json_item 201 "Item saved successfully" vaultItem)
    | None => (st, json_message 500 false "Failed to save item")
    end.

(** The validation chain of [router.put('/items/:id')]. *)
Definition put_items_chain : list (ReqBody -> bool) :=
  [notEmpty b_title; notEmpty b_encryptedData; notEmpty b_iv].

(** [router.put('/items/:id')] *)
Definition put_items (st : Store) (now : Z) (uid itemId : ObjectId)
    (b : ReqBody) : Store * Response :=
  let errors := validationResult put_items_chain b in
  if negb (isEmpty errors) then
    (st, json_message 400 false "Validation failed")
  else
    match findOne st itemId uid with
    | None => (st, json_message 404 false "Item not found")
    | Some vaultItem =>
        match save st now vaultItem (field_value (b_title b))
                (field_value (b_encryptedData b)) (field_value (b_iv b))
                (or_empty (b_tags b)) with
        | Some (st', vaultItem') =>
            (st', json_item 200 "Item updated successfully" vaultItem')
        | None => (st, json_message 500 false "Failed to update item")
        end
    end.

(** [router.delete('/items/:id')] *)
Definition delete_items (st : Store) (uid itemId : ObjectId)
    : Store * Response :=
  match findOneAndDelete st itemId uid with
  | (_, None) => (st, json_message 404 false "Item not found")
  | (st', Some _) => (st', json_message 200 true "Item deleted successfully")
  end.

(** The filter of the search query: the owner, and the pattern found in
    the title or in some tag. *)
Definition search_filter (uid : ObjectId) (re : string -> bool)
    (d : VaultItem) : bool :=
  (userId d =? uid)%nat && (re (title d) || existsb re (tags d)).

(** [router.get('/search')] *)
Definition get_search (st : Store) (uid : ObjectId) (query : option string)
    : Response :=
  if falsy query || String.eqb (trim (field_value query)) "" then
    json_items (find_by_user st uid)
  else
    match RegExp_i (field_value query) with
    | None => json_message 500 false "Search failed"
    | Some re => json_items (sort_desc (filter (search_filter uid re) (docs st)))
    end.

(** [router.post('/verify-master-key')] *)
Definition verify_master_key (uid : ObjectId) (key : option string)
    : Response :=
  if falsy key then json_message 400 false "Master key is required"
  else
    match users uid with
    | None => json_message 404 false "User not found"
    | Some user =>
        if bcrypt_compare (field_value key) (masterKey user)
        then json_message 200 true "Master key verified successfully"
        else json_message 400 false "Invalid master key"
    end.

(** *** The router *)

Inductive Request :=
| GetItems (uid : ObjectId)
| PostItems (now : Z) (uid : ObjectId) (b : ReqBody)
| PutItems (now : Z) (uid itemId : ObjectId) (b : ReqBody)
| DeleteItems (uid itemId : ObjectId)
| GetSearch (uid : ObjectId) (query : option string)
| VerifyMasterKey (uid : ObjectId) (key : option string).

(** One request, served for the caller identity the [auth] middleware
    resolved. *)
Definition handle (st : Store) (r : Request) : Store * Response :=
  match r with
  | GetItems uid => (st, get_items st uid)
  | PostItems now uid b => post_items st now uid b
  | PutItems now uid itemId b => put_items st now uid itemId b
  | DeleteItems uid itemId => delete_items st uid itemId
  | GetSearch uid query => (st, get_search st uid query)
  | VerifyMasterKey uid key => (st, verify_master_key uid key)
  end.

(** The store after a sequence of requests. *)
Fixpoint run (st : Store) (rs : list Request) : Store :=
  match rs with
  | [] => st
  | r :: rs' => run (fst (handle st r)) rs'
  end.

End Routes.

(** ** A fragment of the regular-expression engine

    The patterns made of literal characters, [.], backslash escapes of
    non-alphanumeric characters, groups, alternation and one postfix
    star, plus or question mark per item, matched without regard to case.
    Character classes, anchors, counted repetitions, a group that opens
    with a question mark or a star, escapes of alphanumeric characters and
    a quantifier that follows a quantifier are outside the fragment:
    [compile] answers [Unmodelled] on them and nothing is claimed about
    such patterns. *)

Module Pattern.

Inductive regex :=
| Void
| Eps
| Chr (c : ascii)
| Dot
| Cat (r1 r2 : regex)
| Alt (r1 r2 : regex)
| Star (r : regex).

Fixpoint nullable (r : regex) : bool :=
  match r with
  | Void => false
  | Eps => true
  | Chr _ => false
  | Dot => false
  | Cat r1 r2 => nullable r1 && nullable r2
  | Alt r1 r2 => nullable r1 || nullable r2
  | Star _ => true
  end.

(** The derivative of a pattern by one subject character; [.] matches
    every character but the line feed. *)
Fixpoint deriv (c : ascii) (r : regex) : regex :=
  match r with
  | Void => Void
  | Eps => Void
  | Chr a => if Ascii.eqb (fold_case a) (fold_case c) then Eps else Void
  | Dot => if Ascii.eqb c "010" then Void else Eps
  | Cat r1 r2 =>
      if nullable r1
      then Alt (Cat (deriv c r1) r2) (deriv c r2)
      else Cat (deriv c r1) r2
  | Alt r1 r2 => Alt (deriv c r1) (deriv c r2)
  | Star r1 => Cat (deriv c r1) (Star r1)
  end.

(** Some prefix of the subject matches the pattern. *)
Fixpoint match_prefix (r : regex) (s : string) : bool :=
  nullable r ||
  match s with
  | EmptyString => false
  | String c s' => match_prefix (deriv c r) s'
  end.

(** The unanchored test: the pattern matches at some position. *)
Fixpoint test (r : regex) (s : string) : bool :=
  match_prefix r s ||
  match s with
  | EmptyString => false
  | String _ s' => test r s'
  end.

(** One nesting level of the parser: the alternatives closed so far and
    the items of the open alternative, both latest first, and whether the
    latest item may still take a quantifier. *)
Record frame := mkFrame {
  alts : list regex;
  atoms : list regex;
  open_atom : bool
}.

Definition empty_frame : frame := mkFrame [] [] false.

Definition seq_regex (l : list regex) : regex := fold_right Cat Eps l.

Fixpoint alt_regex (l : list regex) : regex :=
  match l with
  | [] => Void
  | [r] => r
  | r :: l' => Alt r (alt_regex l')
  end.

Definition close_seq (f : frame) : list regex :=
  seq_regex (rev (atoms f)) :: alts f.

Definition frame_regex (f : frame) : regex := alt_regex (rev (close_seq f)).

Definition push_atom (r : regex) (f : frame) : frame :=
  mkFrame (alts f) (r :: atoms f) true.

Definition isAlnum (c : ascii) : bool :=
  let n := nat_of_ascii c in
  ((48 <=? n)%nat && (n <=? 57)%nat) || ((65 <=? n)%nat && (n <=? 90)%nat)
  || ((97 <=? n)%nat && (n <=? 122)%nat).

Definition is_char (c : ascii) (s : string) : bool :=
  String.eqb (String c EmptyString) s.

(** The characters with a meaning of their own in a pattern. *)
Definition isMeta (c : ascii) : bool :=
  existsb (Ascii.eqb c)
    (list_ascii_of_string "\^$.[]|()?*+{}").

Definition quantifier (c : ascii) : option (regex -> regex) :=
  if is_char c "*" then Some Star
  else if is_char c "+" then Some (fun r => Cat r (Star r))
  else if is_char c "?" then Some (fun r => Alt r Eps)
  else None.

Inductive outcome :=
| Compiled (r : regex)
| SyntaxError
| Unmodelled.

Fixpoint parse (stack : list frame) (cur : frame) (p : string) : outcome :=
  match p with
  | EmptyString =>
      match stack with
      | [] => Compiled (frame_regex cur)
      | _ :: _ => SyntaxError
      end
  | String c rest =>
      if is_char c "\" then
        match rest with
        | EmptyString => SyntaxError
        | String e rest' =>
            if isAlnum e then Unmodelled
            else parse stack (push_atom (Chr e) cur) rest'
        end
      else if is_char c "(" then
        match rest with
        | String n _ =>
            if is_char n "?" || is_char n "*" then Unmodelled
            else parse (cur :: stack) empty_frame rest
        | EmptyString => SyntaxError
        end
      else if is_char c ")" then
        match stack with
        | [] => SyntaxError
        | parent :: stack' =>
            parse stack' (push_atom (frame_regex cur) parent) rest
        end
      else if is_char c "|" then
        parse stack (mkFrame (close_seq cur) [] false) rest
      else
        match quantifier c with
        | Some q =>
            match atoms cur with
            | [] => SyntaxError
            | r :: rs =>
                if open_atom cur
                then parse stack (mkFrame (alts cur) (q r :: rs) false) rest
                else Unmodelled
            end
        | None =>
            if is_char c "." then parse stack (push_atom Dot cur) rest
            else if isMeta c then Unmodelled
            else parse stack (push_atom (Chr c) cur) rest
        end
  end.

Definition compile (p : string) : outcome := parse [] empty_frame p.

(** The engine on the fragment; a pattern outside the fragment is
    answered like one that does not compile. *)
Definition RegExp_i (p : string) : option (string -> bool) :=
  match compile p with
  | Compiled r => Some (test r)
  | SyntaxError => None
  | Unmodelled => None
  end.

(** An engine [E] treats the pattern [p] the way the fragment does. *)
Definition agrees (E : string -> option (string -> bool)) (p : string) : Prop :=
  match compile p with
  | Compiled r => exists re, E p = Some re /\ forall s, re s = test r s
  | SyntaxError => E p = None
  | Unmodelled => True
  end.

End Pattern.

(** ** models/Post.js and the post controller

    The [Post] model with its schema validation, and the two handlers of
    the controller that work on the post collection alone, [likePost] and
    [deletePost].  The other handlers answer with documents populated
    from the account and comment collections or call the image storage,
    which are not part of these sources. *)

Module Posts.

(** A document of the [Post] model; [null] is [None]. *)
Record Post := mkPost {
  _id : ObjectId;
  content : option string;
  imageUrl : option string;
  imagePublicId : option string;
  author : ObjectId;
  likes : list ObjectId;
  comments : list ObjectId;
  isPublic : bool;
  createdAt : Z;
  updatedAt : Z
}.

(** The virtuals [likeCount] and [commentCount]. *)
Definition likeCount (p : Post) : nat := List.length (likes p).

Definition commentCount (p : Post) : nat := List.length (comments p).

(** [.] in a JavaScript pattern matches every character but the line
    terminators, here LF and CR. *)
Definition isLineTerminator (c : ascii) : bool :=
  (nat_of_ascii c =? 10)%nat || (nat_of_ascii c =? 13)%nat.

(** The subject continues with [p], case ignored: what is left of
    the subject after it. *)
Fixpoint skip_ci (p s : string) : option string :=
  match p with
  | EmptyString => Some s
  | String a p' =>
      match s with
      | EmptyString => None
      | String c s' =>
          if Ascii.eqb (fold_case a) (fold_case c) then skip_ci p' s' else None
      end
  end.

(** The subject is exactly [p], case ignored. *)
Definition whole_ci (p s : string) : bool :=
  match skip_ci p s with
  | Some EmptyString => true
  | _ => false
  end.

Definition image_extensions : list string :=
  ["png"; "jpg"; "jpeg"; "gif"; "webp"].

(** The end of the image pattern, from [.*] on: any characters but line
    terminators, then a dot and one of the extensions, then the end of the
    subject. *)
Fixpoint image_tail (s : string) : bool :=
  match s with
  | EmptyString => false
  | String c s' =>
      (Ascii.eqb c "." && existsb (fun ext => whole_ci ext s') image_extensions)
      || (negb (isLineTerminator c) && image_tail s')
  end.

(** The pattern of the [imageUrl] validator, with the [i] flag:
    [http], an optional [s], [://], then [image_tail]. *)
Definition image_pattern (v : string) : bool :=
  match skip_ci "http" v with
  | None => false
  | Some r =>
      match skip_ci "s" r with
      | Some r' =>
          match skip_ci "://" r' with
          | Some t => image_tail t
          | None => false
          end
      | None => false
      end
      ||
      match skip_ci "://" r with
      | Some t => image_tail t
      | None => false
      end
  end.

(** The validator of [imageUrl]: [if (!v) return true], then the pattern. *)
Definition imageUrl_validator (v : option string) : bool :=
  if falsy v then true else image_pattern (field_value v).

(** [required: function() { return !this.imageUrl; }] *)
Definition content_required (p : Post) : bool := falsy (imageUrl p).

(** The [required] validator of [content], a [String] path: when the path
    is required the value must be a non-empty string. *)
Definition content_required_ok (p : Post) : bool :=
  if content_required p
  then match content p with
       | Some s => negb (String.eqb s "")
       | None => false
       end
  else true.

(** [minlength] and [maxlength] on a [String] path; both accept [null]. *)
Definition minlength (n : nat) (v : option string) : bool :=
  match v with
  | None => true
  | Some s => (n <=? String.length s)%nat
  end.

Definition maxlength (n : nat) (v : option string) : bool :=
  match v with
  | None => true
  | Some s => (String.length s <=? n)%nat
  end.

(** Schema validation, as [save] runs it on the whole document ([author]
    is required and is always an object id here; the [trim] setter of
    [content] works on assignment and plays no part on a loaded
    document). *)
Definition validateSync (p : Post) : bool :=
  content_required_ok p && minlength 1 (content p) && maxlength 2000 (content p)
  && imageUrl_validator (imageUrl p).

(** [Post.findById(id)] *)
Definition findById (st : list Post) (id : ObjectId) : option Post :=
  find (fun p => (_id p =? id)%nat) st.

Fixpoint replace_post (p : Post) (l : list Post) : list Post :=
  match l with
  | [] => []
  | y :: l' => if (_id y =? _id p)%nat then p :: l' else y :: replace_post p l'
  end.

(** [post.save()] on a loaded document whose [likes] were changed: the
    document is validated against the schema, the timestamps hook sets
    [updatedAt], and the document is written.  [None] is the validation
    error [save] throws. *)
Definition save (st : list Post) (now : Z) (p : Post)
    : option (list Post * Post) :=
  if validateSync p then
    let p' := mkPost (_id p) (content p) (imageUrl p) (imagePublicId p)
                (author p) (likes p) (comments p) (isPublic p)
                (createdAt p) now in
    Some (replace_post p' st, p')
  else None.

Fixpoint remove_post (id : ObjectId) (l : list Post) : list Post :=
  match l with
  | [] => []
  | y :: l' => if (_id y =? id)%nat then l' else y :: remove_post id l'
  end.

(** [Post.findByIdAndDelete(id)] *)
Definition findByIdAndDelete (st : list Post) (id : ObjectId)
    : list Post * option Post :=
  match findById st id with
  | Some p => (remove_post id st, Some p)
  | None => (st, None)
  end.

(** What the two handlers send. *)
Record Response := mkResponse {
  status : nat;
  success : bool;
  error : option string;
  message : option string;
  post : option Post;
  deletedPost : option Post
}.

Definition json_error (code : nat) (err : string) : Response :=
  mkResponse code false (Some err) None None None.

(** The post with its [likes] assigned. *)
Definition with_likes (p : Post) (l : list ObjectId) : Post :=
  mkPost (_id p) (content p) (imageUrl p) (imagePublicId p) (author p) l
    (comments p) (isPublic p) (createdAt p) (updatedAt p).

(** [likePost]; [userId] is [req.userId], absent when no caller was
    resolved. *)
Definition likePost (st : list Post) (now : Z) (userId : option ObjectId)
    (postId : ObjectId) : list Post * Response :=
  match userId with
  | None => (st, json_error 401 "Authentication required")
  | Some u =>
      match findById st postId with
      | None => (st, json_error 404 "Post not found")
      | Some post =>
          let isLiked := existsb (fun id => (id =? u)%nat) (likes post) in
          let post' :=
            if isLiked
            then with_likes post (filter (fun id => negb (id =? u)%nat) (likes post))
            else with_likes post (likes post ++ [u]) in
          match save st now post' with
          | Some (st', updatedPost) =>
              (st', mkResponse 200 true None
                      (Some (if isLiked then "Post unliked" else "Post liked"))
                      (Some updatedPost) None)
          | None => (st, json_error 500 "Failed to update like status")
          end
      end
  end.

(** [deletePost] *)
Definition deletePost (st : list Post) (userId : option ObjectId)
    (id : ObjectId) : list Post * Response :=
  match findById st id with
  | None => (st, json_error 404 "Post not found")
  | Some post =>
      match userId with
      | None => (st, json_error 401 "User authentication required")
      | Some u =>
          if negb (author post =? u)%nat then
            (st, json_error 403 "Unauthorized to delete this post")
          else
            match findByIdAndDelete st id with
            | (st', Some deleted) =>
                (st', mkResponse 200 true None
                        (Some "Post deleted successfully") None (Some deleted))
            | (_, None) => (st, json_error 404 "Post not found during deletion")
            end
      end
  end.

(** The shape of an image url: a scheme that reads [http://] or
    [https://] when case is ignored, any characters but line terminators,
    a dot, and one of the five extensions in any case. *)
Definition image_url_shape (v : string) : Prop :=
  exists scheme mid ext,
    v = scheme ++ mid ++ "." ++ ext /\
    (lower scheme = "http://" \/ lower scheme = "https://") /\
    Forall (fun c => isLineTerminator c = false) (list_ascii_of_string mid) /\
    In (lower ext) image_extensions.

(** The likes of everybody but [u], in their order. *)
Definition likes_of_others (u : ObjectId) (p : Post) : list ObjectId :=
  filter (fun id => negb (id =? u)%nat) (likes p).

(** Object ids are unique in the collection. *)
Definition wf (st : list Post) : Prop := NoDup (map _id st).

(** Reference data. *)
Definition hello : Post :=
  mkPost 0 (Some "hello") None None 1 [2; 3]%nat [] true 1000 1000.

Definition photo : Post :=
  mkPost 1 None (Some "https://res.cloudinary.com/demo/posts/cat.JPG")
    (Some "posts/cat") 2 [] [] true 2000 2000.

Definition feed : list Post := [hello; photo].

End Posts.

(** ** The vocabulary of the properties *)

(** A store is well formed when object ids are unique and all below the
    generator. *)
Definition wf (st : Store) : Prop :=
  NoDup (map _id (docs st)) /\
  Forall (fun d => (_id d < nextId st)%nat) (docs st).

(** Newest first. *)
Definition newest_first (l : list VaultItem) : Prop :=
  StronglySorted (fun a b => createdAt b <= createdAt a) l.

(** The document with a given object id, whoever owns it. *)
Definition lookup (st : Store) (i : ObjectId) : option VaultItem :=
  find (fun d => (_id d =? i)%nat) (docs st).

(** Reading a record back through the list route. *)
Definition read_back (st : Store) (uid i : ObjectId) : option VaultItem :=
  match items (get_items st uid) with
  | Some l => find (fun d => (_id d =? i)%nat) l
  | None => None
  end.

(** A required body field is absent or empty. *)
Definition empty_field (v : option string) : bool :=
  match v with
  | None => true
  | Some s => String.eqb s ""
  end.

Definition missing_required (b : ReqBody) : bool :=
  empty_field (b_title b) || empty_field (b_encryptedData b) || empty_field (b_iv b).

(** A query is blank when it is absent or made of white space only. *)
Definition blank (q : option string) : Prop :=
  match q with
  | None => True
  | Some s => Forall (fun c => isWhiteSpace c = true) (list_ascii_of_string s)
  end.

(** [s] contains [q] as a substring, case ignored. *)
Definition contains_ci (q s : string) : Prop :=
  exists pre post, lower s = pre ++ lower q ++ post.

Fixpoint prefix_ci (q s : string) : bool :=
  match q with
  | EmptyString => true
  | String a q' =>
      match s with
      | EmptyString => false
      | String c s' => Ascii.eqb (fold_case a) (fold_case c) && prefix_ci q' s'
      end
  end.

(** The decision procedure for [contains_ci]. *)
Fixpoint includes_ci (q s : string) : bool :=
  prefix_ci q s ||
  match s with
  | EmptyString => false
  | String _ s' => includes_ci q s'
  end.

(** A query in which no character has a meaning of its own in a pattern,
    and without the NUL character, which a pattern sent to the database
    cannot hold. *)
Definition literal (q : string) : bool :=
  forallb (fun c => negb (Pattern.isMeta c) && negb (Ascii.eqb c "000"%char))
    (list_ascii_of_string q).

(** The records of a response, whichever key carries them. *)
Definition records (r : Response) : list VaultItem :=
  match items r with Some l => l | None => [] end ++
  match item r with Some d => [d] | None => [] end.

(** The documents a caller does not own. *)
Definition foreign (uid : ObjectId) (st : Store) : list VaultItem :=
  filter (fun d => negb (userId d =? uid)%nat) (docs st).

(** The caller identity of a request to a vault-item route. *)
Definition caller (r : Request) : ObjectId :=
  match r with
  | GetItems uid => uid
  | PostItems _ uid _ => uid
  | PutItems _ uid _ _ => uid
  | DeleteItems uid _ => uid
  | GetSearch uid _ => uid
  | VerifyMasterKey uid _ => uid
  end.

(** The request is an update or a delete aimed at the object id [i]. *)
Definition targets (i : ObjectId) (r : Request) : bool :=
  match r with
  | PutItems _ _ itemId _ => (itemId =? i)%nat
  | DeleteItems _ itemId => (itemId =? i)%nat
  | _ => false
  end.

(** No request of the sequence is an update or a delete aimed at [i]. *)
Definition quiet (i : ObjectId) (rs : list Request) : bool :=
  forallb (fun r => negb (targets i r)) rs.

(** The encrypted payload and the iv a create or update request supplies. *)
Definition supplied (r : Request) : option (string * string) :=
  match r with
  | PostItems _ _ b | PutItems _ _ _ b =>
      match b_encryptedData b, b_iv b with
      | Some e, Some v => Some (e, v)
      | _, _ => None
      end
  | _ => None
  end.

(** The document the create route builds from an accepted body. *)
Definition created_item (st : Store) (now : Z) (u : ObjectId) (b : ReqBody)
    : VaultItem :=
  mkVaultItem (nextId st) u (field_value (b_title b))
    (field_value (b_encryptedData b)) (field_value (b_iv b))
    (or_empty (b_tags b)) now now.

(** The document the update route writes over [old] when a path changed. *)
Definition updated_item (old : VaultItem) (now : Z) (b : ReqBody) : VaultItem :=
  mkVaultItem (_id old) (userId old) (field_value (b_title b))
    (field_value (b_encryptedData b)) (field_value (b_iv b))
    (or_empty (b_tags b)) (createdAt old) now.

(** The update changes one of the four fields of [old]. *)
Definition changes (old : VaultItem) (b : ReqBody) : bool :=
  isModified old (field_value (b_title b)) (field_value (b_encryptedData b))
    (field_value (b_iv b)) (or_empty (b_tags b)).

(** The pattern a literal query compiles to. *)
Definition literal_regex (q : string) : Pattern.regex :=
  Pattern.seq_regex (map Pattern.Chr (list_ascii_of_string q)).

(** ** Reference data *)

Module Ref.

(** A comparison to run the master-key route on concrete input; it is
    not a description of [bcrypt.compare], of which nothing is assumed. *)
Definition compare (k h : string) : bool := String.eqb ("$2a$" ++ k) h.

Definition users (uid : ObjectId) : option User :=
  match uid with
  | 1%nat => Some (mkUser "$2a$correct horse")
  | _ => None
  end.

Definition body (t e i : string) (tg : option (list string)) : ReqBody :=
  mkReqBody (Some t) (Some e) (Some i) tg.

Definition bank : VaultItem :=
  mkVaultItem 0 1 "bank" "cAfe01" "000102" ["finance"] 1000 1000.

Definition mail : VaultItem :=
  mkVaultItem 1 2 "mail" "beef02" "0a0b0c" [] 2000 2000.


Definition st1 : Store := mkStore [bank] 1.

Definition st2 : Store := mkStore [bank; mail] 2.

(** A record whose title ends with the capital E with acute accent, the
    code unit 201. *)
Definition cafe : VaultItem :=
  mkVaultItem 2 1 ("CAF" ++ String "201" "") "f00d03" "0d0e0f" [] 3000 3000.

Definition st3 : Store := mkStore [bank; mail; cafe] 3.

End Ref.

(** * Properties *)

(** ** Strings *)

Lemma trimStart_blank (s : string) :
  Forall (fun c => isWhiteSpace c = true) (list_ascii_of_string s) ->
  trimStart s = "".
Proof.
  induction s as [|c s IH]; simpl; intros H.
  - reflexivity.
  - inversion H as [|? ? Hc Hs]; subst. rewrite Hc. auto.
Qed.

Lemma trim_blank (s : string) :
  Forall (fun c => isWhiteSpace c = true) (list_ascii_of_string s) ->
  trim s = "".
Proof.
  intros H. unfold trim. rewrite (trimStart_blank s H). reflexivity.
Qed.

Lemma eqb_empty_false (c : ascii) (s : string) : String.eqb (String c s) "" = false.
Proof. reflexivity. Qed.

(** ** The validation chains *)

Lemma notEmpty_empty_field (f : ReqBody -> option string) (b : ReqBody) :
  notEmpty f b = negb (empty_field (f b)).
Proof. unfold notEmpty, empty_field. destruct (f b); reflexivity. Qed.

Lemma post_chain_accepts (b : ReqBody) :
  isEmpty (validationResult post_items_chain b) = negb (missing_required b).
Proof.
  unfold validationResult, post_items_chain, missing_required. simpl.
  rewrite !notEmpty_empty_field.
  destruct (empty_field (b_title b)), (empty_field (b_encryptedData b)),
    (empty_field (b_iv b)); reflexivity.
Qed.

Lemma put_chain_accepts (b : ReqBody) :
  isEmpty (validationResult put_items_chain b) = negb (missing_required b).
Proof.
  unfold validationResult, put_items_chain, missing_required. simpl.
  rewrite !notEmpty_empty_field.
  destruct (empty_field (b_title b)), (empty_field (b_encryptedData b)),
    (empty_field (b_iv b)); reflexivity.
Qed.

Lemma present_checkRequired (v : option string) :
  empty_field v = false -> checkRequired (field_value v) = true.
Proof.
  destruct v as [s|]; simpl; [|discriminate].
  unfold checkRequired. intros ->. reflexivity.
Qed.

(** After the chain has accepted a body, the schema validation of [save]
    cannot fail. *)
Lemma accepted_body_validates (b : ReqBody) (i u : ObjectId)
    (tg : list string) (c m : Z) :
  missing_required b = false ->
  validateSync (mkVaultItem i u (field_value (b_title b))
                  (field_value (b_encryptedData b)) (field_value (b_iv b))
                  tg c m) = true.
Proof.
  unfold missing_required, validateSync. simpl. intros H.
  apply orb_false_iff in H as [H H3]. apply orb_false_iff in H as [H1 H2].
  rewrite !present_checkRequired by assumption. reflexivity.
Qed.

(** ** Sorting *)

Lemma insert_desc_perm (x : VaultItem) (l : list VaultItem) :
  Permutation (x :: l) (insert_desc x l).
Proof.
  induction l as [|y l IH]; simpl.
  - apply Permutation_refl.
  - destruct (createdAt y <=? createdAt x).
    + apply Permutation_refl.
    + eapply perm_trans; [apply perm_swap|]. apply perm_skip, IH.
Qed.

Lemma sort_desc_perm (l : list VaultItem) : Permutation l (sort_desc l).
Proof.
  induction l as [|x l IH]; simpl.
  - apply perm_nil.
  - eapply perm_trans; [apply perm_skip, IH|]. apply insert_desc_perm.
Qed.

Lemma sort_desc_In (x : VaultItem) (l : list VaultItem) :
  In x (sort_desc l) <-> In x l.
Proof.
  split; intros H.
  - eapply Permutation_in; [apply Permutation_sym, sort_desc_perm|exact H].
  - eapply Permutation_in; [apply sort_desc_perm|exact H].
Qed.

Lemma insert_desc_sorted (x : VaultItem) (l : list VaultItem) :
  newest_first l -> newest_first (insert_desc x l).
Proof.
  unfold newest_first. induction l as [|y l IH]; simpl; intros H.
  - repeat constructor.
  - inversion H as [|? ? Hl Hy]; subst.
    destruct (createdAt y <=? createdAt x) eqn:E.
    + apply Z.leb_le in E. constructor; [exact H|].
      constructor; [exact E|].
      eapply Forall_impl; [|exact Hy]. simpl. intros; lia.
    + apply Z.leb_gt in E. constructor; [apply IH, Hl|].
      apply Forall_forall. intros z Hz.
      apply (Permutation_in z (Permutation_sym (insert_desc_perm x l))) in Hz.
      destruct Hz as [<-|Hz]; [lia|].
      rewrite Forall_forall in Hy. apply Hy, Hz.
Qed.

Lemma sort_desc_sorted (l : list VaultItem) : newest_first (sort_desc l).
Proof.
  induction l as [|x l IH]; simpl.
  - constructor.
  - apply insert_desc_sorted, IH.
Qed.

Lemma insert_desc_front (x : VaultItem) (l : list VaultItem) :
  newest_first l ->
  Forall (fun z => createdAt z <= createdAt x) l ->
  insert_desc x l = x :: l.
Proof.
  destruct l as [|y l]; simpl; intros _ H; [reflexivity|].
  inversion H; subst.
  destruct (createdAt y <=? createdAt x) eqn:E; [reflexivity|].
  apply Z.leb_gt in E. lia.
Qed.

Lemma filter_newest_first (p : VaultItem -> bool) (l : list VaultItem) :
  newest_first l -> newest_first (filter p l).
Proof.
  unfold newest_first. induction l as [|y l IH]; simpl; intros H.
  - constructor.
  - inversion H as [|? ? Hl Hy]; subst.
    destruct (p y); [|auto].
    constructor; [auto|].
    apply Forall_forall. intros z Hz. apply filter_In in Hz as [Hz _].
    rewrite Forall_forall in Hy. auto.
Qed.

Lemma filter_insert_desc (p : VaultItem -> bool) (x : VaultItem)
    (l : list VaultItem) :
  newest_first l ->
  filter p (insert_desc x l) =
  if p x then insert_desc x (filter p l) else filter p l.
Proof.
  induction l as [|y l IH]; simpl; intros H.
  - destruct (p x); reflexivity.
  - inversion H as [|? ? Hl Hy]; subst.
    destruct (createdAt y <=? createdAt x) eqn:E; simpl.
    + destruct (p x) eqn:Px; [|reflexivity].
      destruct (p y) eqn:Py; simpl.
      * rewrite E. reflexivity.
      * symmetry. apply insert_desc_front.
        -- apply filter_newest_first, Hl.
        -- apply Z.leb_le in E. apply Forall_forall. intros z Hz.
           apply filter_In in Hz as [Hz _].
           rewrite Forall_forall in Hy. specialize (Hy z Hz). simpl in Hy. lia.
    + rewrite (IH Hl). destruct (p y) eqn:Py; destruct (p x) eqn:Px; simpl;
        try rewrite E; reflexivity.
Qed.

(** Filtering commutes with the sort: the order of a search result is the
    order of the listing. *)
Lemma sort_desc_filter (p : VaultItem -> bool) (l : list VaultItem) :
  sort_desc (filter p l) = filter p (sort_desc l).
Proof.
  induction l as [|x l IH]; simpl; [reflexivity|].
  rewrite filter_insert_desc by apply sort_desc_sorted.
  destruct (p x); simpl; rewrite IH; reflexivity.
Qed.

Lemma filter_filter (p q : VaultItem -> bool) (l : list VaultItem) :
  filter (fun d => p d && q d) l = filter q (filter p l).
Proof.
  induction l as [|x l IH]; simpl; [reflexivity|].
  destruct (p x); simpl; [destruct (q x)|]; rewrite IH; reflexivity.
Qed.

(** ** Documents and object ids *)

Section Collection.

Implicit Types (l : list VaultItem) (d x : VaultItem) (i j u : ObjectId).

Lemma NoDup_ids_unique l d x :
  NoDup (map _id l) -> In d l -> In x l -> _id x = _id d -> x = d.
Proof.
  induction l as [|y l IH]; simpl; intros N Hd Hx E; [contradiction|].
  inversion N as [|? ? Hy N']; subst.
  destruct Hd as [-> |Hd], Hx as [-> |Hx]; auto.
  - exfalso. apply Hy. rewrite <- E. apply in_map, Hx.
  - exfalso. apply Hy. rewrite E. apply in_map, Hd.
Qed.

Lemma find_id_iff l i d :
  NoDup (map _id l) ->
  find (fun x => (_id x =? i)%nat) l = Some d <-> In d l /\ _id d = i.
Proof.
  intros N. split.
  - intros H. apply find_some in H as [H1 H2].
    apply Nat.eqb_eq in H2. auto.
  - intros [H1 H2]. induction l as [|y l IH]; simpl in *; [contradiction|].
    inversion N as [|? ? Hy N']; subst.
    destruct (_id y =? _id d)%nat eqn:E.
    + apply Nat.eqb_eq in E. f_equal.
      apply (NoDup_ids_unique (y :: l) d y N); simpl; auto.
    + destruct H1 as [-> |H1]; [rewrite Nat.eqb_refl in E; discriminate|].
      auto.
Qed.

Lemma find_id_none l i :
  find (fun x => (_id x =? i)%nat) l = None <-> ~ In i (map _id l).
Proof.
  induction l as [|y l IH]; simpl.
  - tauto.
  - destruct (_id y =? i)%nat eqn:E.
    + apply Nat.eqb_eq in E. split; [discriminate|]. intros H. exfalso. auto.
    + apply Nat.eqb_neq in E. rewrite IH. tauto.
Qed.

(** The lookup by the pair of object id and owner is the lookup by object
    id followed by the ownership test. *)
Lemma find_pair l i u :
  NoDup (map _id l) ->
  find (fun x => (_id x =? i)%nat && (userId x =? u)%nat) l =
  match find (fun x => (_id x =? i)%nat) l with
  | Some d => if (userId d =? u)%nat then Some d else None
  | None => None
  end.
Proof.
  induction l as [|y l IH]; simpl; intros N; [reflexivity|].
  inversion N as [|? ? Hy N']; subst.
  destruct (_id y =? i)%nat eqn:E; simpl.
  - destruct (userId y =? u)%nat; [reflexivity|].
    apply Nat.eqb_eq in E. subst i.
    rewrite (IH N'). apply find_id_none in Hy. rewrite Hy. reflexivity.
  - apply IH, N'.
Qed.

Lemma NoDup_ids_filter (p : VaultItem -> bool) l :
  NoDup (map _id l) -> NoDup (map _id (filter p l)).
Proof.
  induction l as [|y l IH]; simpl; intros N; [constructor|].
  inversion N as [|? ? Hy N']; subst.
  destruct (p y); simpl; [|auto].
  constructor; [|auto].
  intros H. apply Hy. apply in_map_iff in H as (x & Hx & Hin).
  apply filter_In in Hin as [Hin _]. rewrite <- Hx. apply in_map, Hin.
Qed.

Lemma NoDup_ids_sort l : NoDup (map _id l) -> NoDup (map _id (sort_desc l)).
Proof.
  intros N. eapply Permutation_NoDup; [|exact N].
  apply Permutation_map, sort_desc_perm.
Qed.

Lemma map_id_replace d l : map _id (replace_doc d l) = map _id l.
Proof.
  induction l as [|y l IH]; simpl; [reflexivity|].
  destruct (_id y =? _id d)%nat eqn:E; simpl.
  - apply Nat.eqb_eq in E. congruence.
  - congruence.
Qed.

Lemma In_replace d l x :
  NoDup (map _id l) -> In (_id d) (map _id l) ->
  In x (replace_doc d l) <-> (In x l /\ _id x <> _id d) \/ x = d.
Proof.
  induction l as [|y l IH]; simpl; intros N H; [contradiction|].
  inversion N as [|? ? Hy N']; subst.
  destruct (_id y =? _id d)%nat eqn:E; simpl.
  - apply Nat.eqb_eq in E. split.
    + intros [<-|Hx]; [auto|]. left. split; [auto|].
      intros Ex. apply Hy. rewrite E, <- Ex. apply in_map, Hx.
    + intros [[[<-|Hx] Hne]| ->]; auto. congruence.
  - apply Nat.eqb_neq in E. destruct H as [H|H]; [congruence|].
    rewrite (IH N' H). split.
    + intros [<-|[[Hx Hne]| ->]]; auto.
    + intros [[[<-|Hx] Hne]| ->]; auto.
Qed.

Lemma remove_first_incl (f : VaultItem -> bool) l x :
  In x (remove_first f l) -> In x l.
Proof.
  induction l as [|y l IH]; simpl; [auto|].
  destruct (f y); simpl; [auto|]. intros [<-|H]; auto.
Qed.

Lemma NoDup_ids_remove (f : VaultItem -> bool) l :
  NoDup (map _id l) -> NoDup (map _id (remove_first f l)).
Proof.
  induction l as [|y l IH]; simpl; intros N; [constructor|].
  inversion N as [|? ? Hy N']; subst.
  destruct (f y); simpl; [auto|].
  constructor; [|auto].
  intros H. apply Hy. apply in_map_iff in H as (x & Hx & Hin).
  rewrite <- Hx. apply in_map. eapply remove_first_incl, Hin.
Qed.

Lemma In_remove_first (f : VaultItem -> bool) l d x :
  NoDup (map _id l) -> find f l = Some d ->
  In x (remove_first f l) <-> In x l /\ _id x <> _id d.
Proof.
  induction l as [|y l IH]; simpl; intros N H; [discriminate|].
  inversion N as [|? ? Hy N']; subst.
  destruct (f y) eqn:E.
  - inversion H; subst y. split.
    + intros Hx. split; [auto|]. intros Ex. apply Hy. rewrite <- Ex.
      apply in_map, Hx.
    + intros [[<-|Hx] Hne]; [congruence|auto].
  - simpl. rewrite (IH N' H). split.
    + intros [<-|[Hx Hne]]; [|auto]. split; [auto|].
      intros Ex. apply Hy. rewrite Ex. apply in_map.
      apply find_some in H. apply H.
    + intros [[<-|Hx] Hne]; auto.
Qed.

End Collection.

(** ** The store operations *)

Lemma wf_lookup_iff (st : Store) (i : ObjectId) (d : VaultItem) :
  wf st -> lookup st i = Some d <-> In d (docs st) /\ _id d = i.
Proof. intros [N _]. apply find_id_iff, N. Qed.

Lemma wf_findOne (st : Store) (i u : ObjectId) :
  wf st ->
  findOne st i u =
  match lookup st i with
  | Some d => if (userId d =? u)%nat then Some d else None
  | None => None
  end.
Proof. intros [N _]. apply find_pair, N. Qed.

Lemma findOne_spec (st : Store) (i u : ObjectId) (d : VaultItem) :
  findOne st i u = Some d -> In d (docs st) /\ _id d = i /\ userId d = u.
Proof.
  unfold findOne. intros H. apply find_some in H as [H1 H2].
  apply andb_true_iff in H2 as [H2 H3].
  apply Nat.eqb_eq in H2, H3. auto.
Qed.

Lemma find_by_user_In (st : Store) (u : ObjectId) (d : VaultItem) :
  In d (find_by_user st u) <-> In d (docs st) /\ userId d = u.
Proof.
  unfold find_by_user. rewrite sort_desc_In, filter_In, Nat.eqb_eq. tauto.
Qed.

Lemma wf_below (st : Store) (d : VaultItem) :
  wf st -> In d (docs st) -> (_id d < nextId st)%nat.
Proof. intros [_ F] H. rewrite Forall_forall in F. apply F, H. Qed.

Lemma create_wf (st st' : Store) (now : Z) (u : ObjectId) (t e i : string)
    (tg : list string) (d : VaultItem) :
  wf st -> create st now u t e i tg = Some (st', d) -> wf st'.
Proof.
  unfold create. intros [N F] H.
  destruct (validateSync _); [|discriminate]. inversion H; subst; clear H.
  split; simpl.
  - rewrite map_app. simpl. apply NoDup_app_remove_l with (l := []). simpl.
    apply Permutation_NoDup with (l := nextId st :: map _id (docs st)).
    + apply Permutation_cons_append.
    + constructor; [|exact N].
      intros H. apply in_map_iff in H as (x & Hx & Hin).
      rewrite Forall_forall in F. specialize (F x Hin). simpl in F. lia.
  - apply Forall_app. split.
    + eapply Forall_impl; [|exact F]. simpl. intros; lia.
    + constructor; [simpl; lia|constructor].
Qed.

Lemma save_wf (st st' : Store) (now : Z) (old d : VaultItem) (t e i : string)
    (tg : list string) :
  wf st -> In old (docs st) ->
  save st now old t e i tg = Some (st', d) -> wf st'.
Proof.
  unfold save. intros [N F] Hin H.
  destruct (isModified old t e i tg).
  - destruct (validateSync _); [|discriminate]. inversion H; subst; clear H.
    split; simpl.
    + rewrite map_id_replace. exact N.
    + apply Forall_forall. intros x Hx.
      apply In_replace in Hx; [|exact N|simpl; apply in_map, Hin].
      rewrite Forall_forall in F.
      destruct Hx as [[Hx _]| ->]; [apply F, Hx|]. simpl. apply (F old Hin).
  - inversion H; subst. split; assumption.
Qed.

Lemma findOneAndDelete_wf (st : Store) (i u : ObjectId) :
  wf st -> wf (fst (findOneAndDelete st i u)).
Proof.
  unfold findOneAndDelete. intros [N F].
  destruct (find _ (docs st)) eqn:E; simpl; [|split; assumption].
  split; simpl.
  - apply NoDup_ids_remove, N.
  - apply Forall_forall. intros x Hx. apply remove_first_incl in Hx.
    rewrite Forall_forall in F. apply F, Hx.
Qed.

(** ** The handlers, case by case *)

Lemma post_items_eq (st : Store) (now : Z) (u : ObjectId) (b : ReqBody) :
  post_items st now u b =
  if missing_required b
  then (st, json_message 400 false "Validation failed")
  else (mkStore (docs st ++ [created_item st now u b]) (S (nextId st)),
        json_item 201 "Item saved successfully" (created_item st now u b)).
Proof.
  unfold post_items. rewrite post_chain_accepts, negb_involutive.
  destruct (missing_required b) eqn:M; [reflexivity|].
  unfold create. rewrite accepted_body_validates by exact M. reflexivity.
Qed.

Lemma put_items_eq (st : Store) (now : Z) (u i : ObjectId) (b : ReqBody) :
  put_items st now u i b =
  if missing_required b
  then (st, json_message 400 false "Validation failed")
  else match findOne st i u with
       | None => (st, json_message 404 false "Item not found")
       | Some old =>
           if changes old b
           then (mkStore (replace_doc (updated_item old now b) (docs st)) (nextId st),
                 json_item 200 "Item updated successfully" (updated_item old now b))
           else (st, json_item 200 "Item updated successfully" old)
       end.
Proof.
  unfold put_items. rewrite put_chain_accepts, negb_involutive.
  destruct (missing_required b) eqn:M; [reflexivity|].
  destruct (findOne st i u) as [old|]; [|reflexivity].
  unfold save, changes. destruct (isModified _ _ _ _ _); [|reflexivity].
  rewrite accepted_body_validates by exact M. reflexivity.
Qed.

Lemma delete_items_eq (st : Store) (u i : ObjectId) :
  delete_items st u i =
  match findOne st i u with
  | None => (st, json_message 404 false "Item not found")
  | Some _ =>
      (mkStore (remove_first (fun d => (_id d =? i)%nat && (userId d =? u)%nat)
                  (docs st)) (nextId st),
       json_message 200 true "Item deleted successfully")
  end.
Proof.
  unfold delete_items, findOneAndDelete, findOne.
  destruct (find _ (docs st)); reflexivity.
Qed.

Lemma unchanged_fields (old : VaultItem) (b : ReqBody) :
  changes old b = false ->
  title old = field_value (b_title b) /\
  encryptedData old = field_value (b_encryptedData b) /\
  iv old = field_value (b_iv b) /\
  tags old = or_empty (b_tags b).
Proof.
  unfold changes, isModified, string_list_eqb. intros H.
  apply negb_false_iff in H.
  repeat (apply andb_true_iff in H as [H ?]).
  destruct (list_eq_dec string_dec _ _); [|discriminate].
  repeat match goal with E : String.eqb _ _ = true |- _ => apply String.eqb_eq in E end.
  auto.
Qed.

Section Invariants.

Variable RegExp_i : string -> option (string -> bool).
Variable bcrypt_compare : string -> string -> bool.
Variable users : ObjectId -> option User.

Local Abbreviation handle := (handle RegExp_i bcrypt_compare users).
Local Abbreviation run := (run RegExp_i bcrypt_compare users).

Lemma handle_wf (st : Store) (r : Request) : wf st -> wf (fst (handle st r)).
Proof.
  intros W. destruct r as [u|now u b|now u i b|u i|u q|u k]; simpl; auto.
  - rewrite post_items_eq. destruct (missing_required b) eqn:M; [exact W|].
    simpl. apply (create_wf st _ now u (field_value (b_title b))
      (field_value (b_encryptedData b)) (field_value (b_iv b))
      (or_empty (b_tags b)) (created_item st now u b) W).
    unfold create. rewrite accepted_body_validates by exact M. reflexivity.
  - rewrite put_items_eq. destruct (missing_required b) eqn:M; [exact W|].
    destruct (findOne st i u) as [old|] eqn:F; [|exact W].
    destruct (changes old b) eqn:C; [|exact W]. simpl.
    apply findOne_spec in F as (Hin & _ & _).
    apply (save_wf st _ now old (updated_item old now b)
      (field_value (b_title b)) (field_value (b_encryptedData b))
      (field_value (b_iv b)) (or_empty (b_tags b)) W Hin).
    unfold save. fold (changes old b). rewrite C.
    rewrite accepted_body_validates by exact M. reflexivity.
  - unfold delete_items.
    pose proof (findOneAndDelete_wf st i u W) as W'.
    destruct (findOneAndDelete st i u) as [st' [d|]]; simpl in *; auto.
Qed.

Lemma run_wf (rs : list Request) (st : Store) : wf st -> wf (run st rs).
Proof.
  revert st. induction rs as [|r rs IH]; simpl; intros st W; [exact W|].
  apply IH, handle_wf, W.
Qed.

Lemma handle_nextId (st : Store) (r : Request) :
  (nextId st <= nextId (fst (handle st r)))%nat.
Proof.
  destruct r as [u|now u b|now u i b|u i|u q|u k]; simpl; auto.
  - rewrite post_items_eq. destruct (missing_required b); simpl; lia.
  - rewrite put_items_eq. destruct (missing_required b); simpl; [lia|].
    destruct (findOne st i u) as [old|]; simpl; [|lia].
    destruct (changes old b); simpl; lia.
  - rewrite delete_items_eq. destruct (findOne st i u); simpl; lia.
Qed.

(** A request that is not an update or a delete of [i] leaves the
    document [i] as it is. *)
Lemma handle_frame (st : Store) (r : Request) (i : ObjectId) (d : VaultItem) :
  wf st -> targets i r = false ->
  lookup st i = Some d -> lookup (fst (handle st r)) i = Some d.
Proof.
  intros W T L. pose proof (handle_wf st r W) as W'.
  apply (wf_lookup_iff _ _ _ W) in L as [Hin Hid].
  apply (wf_lookup_iff _ _ _ W'). split; [|exact Hid]. clear W'.
  destruct r as [u|now u b|now u j b|u j|u q|u k]; simpl in *; auto.
  - rewrite post_items_eq. destruct (missing_required b); simpl; [exact Hin|].
    apply in_or_app. auto.
  - rewrite put_items_eq. destruct (missing_required b); simpl; [exact Hin|].
    destruct (findOne st j u) as [old|] eqn:F; [|exact Hin].
    destruct (changes old b); simpl; [|exact Hin].
    apply findOne_spec in F as (Hold & Hj & _).
    apply Nat.eqb_neq in T.
    apply In_replace; [apply W|simpl; apply in_map, Hold|].
    left. split; [exact Hin|]. simpl. congruence.
  - rewrite delete_items_eq.
    destruct (findOne st j u) as [old|] eqn:F; simpl; [|exact Hin].
    pose proof (findOne_spec _ _ _ _ F) as (Hold & Hj & _).
    apply Nat.eqb_neq in T.
    apply (In_remove_first _ _ old); [apply W|exact F|].
    split; [exact Hin|]. congruence.
Qed.

(** An object id that was issued and is no longer in the collection stays
    out of it. *)
Lemma handle_gone (st : Store) (r : Request) (i : ObjectId) :
  wf st -> (i < nextId st)%nat ->
  lookup st i = None -> lookup (fst (handle st r)) i = None.
Proof.
  intros W B L. unfold lookup in *. apply find_id_none in L.
  apply find_id_none. intros H. apply L. clear L.
  destruct r as [u|now u b|now u j b|u j|u q|u k]; simpl in *; auto.
  - rewrite post_items_eq in H. destruct (missing_required b); simpl in H; auto.
    rewrite map_app in H. apply in_app_or in H as [H|H]; [exact H|].
    simpl in H. destruct H as [H|[]]. lia.
  - rewrite put_items_eq in H. destruct (missing_required b); simpl in H; auto.
    destruct (findOne st j u) as [old|]; auto.
    destruct (changes old b); simpl in H; auto.
    rewrite map_id_replace in H. exact H.
  - rewrite delete_items_eq in H.
    destruct (findOne st j u) as [old|]; simpl in H; auto.
    apply in_map_iff in H as (x & Hx & Hin).
    apply remove_first_incl in Hin. rewrite <- Hx. apply in_map, Hin.
Qed.

Lemma run_gone (rs : list Request) (st : Store) (i : ObjectId) :
  wf st -> (i < nextId st)%nat ->
  lookup st i = None -> lookup (run st rs) i = None.
Proof.
  revert st. induction rs as [|r rs IH]; simpl; intros st W B L; [exact L|].
  apply IH.
  - apply handle_wf, W.
  - pose proof (handle_nextId st r). lia.
  - apply handle_gone; assumption.
Qed.

Lemma run_frame (rs : list Request) (st : Store) (i : ObjectId) (d : VaultItem) :
  wf st -> forallb (fun r => negb (targets i r)) rs = true ->
  lookup st i = Some d -> lookup (run st rs) i = Some d.
Proof.
  revert st. induction rs as [|r rs IH]; simpl; intros st W T L; [exact L|].
  apply andb_true_iff in T as [T1 T2]. apply negb_true_iff in T1.
  apply IH; [apply handle_wf, W|exact T2|].
  apply handle_frame; assumption.
Qed.

End Invariants.

Lemma st1_wf : wf Ref.st1.
Proof.
  split; simpl.
  - repeat constructor. simpl. tauto.
  - repeat constructor.
Qed.

Lemma st2_wf : wf Ref.st2.
Proof.
  split; simpl.
  - repeat constructor; simpl; intuition discriminate.
  - repeat constructor.
Qed.


Lemma read_back_lookup (st : Store) (u i : ObjectId) (d : VaultItem) :
  wf st -> lookup st i = Some d -> userId d = u -> read_back st u i = Some d.
Proof.
  intros W L Hu. apply (wf_lookup_iff _ _ _ W) in L as [Hin Hid].
  unfold read_back, get_items. simpl. apply find_id_iff.
  - unfold find_by_user. apply NoDup_ids_sort, NoDup_ids_filter, W.
  - split; [|exact Hid]. apply find_by_user_In. auto.
Qed.

(** ** The search route on a blank query *)

(** C3: for every owner, a search whose query is absent, empty or made of
    white space only answers exactly what the list route answers for that
    owner: the same records in the same order, newest first. *)
Theorem search_blank_is_list (E : string -> option (string -> bool))
    (st : Store) (u : ObjectId) (q : option string) :
  blank q ->
  get_search E st u q = get_items st u /\
  newest_first (records (get_search E st u q)).
Proof.
  intros B.
  assert (H : get_search E st u q = get_items st u).
  { unfold get_search, get_items. destruct q as [s|]; simpl; [|reflexivity].
    simpl in B. rewrite (trim_blank s B). simpl.
    rewrite orb_true_r. reflexivity. }
  split; [exact H|]. rewrite H. unfold get_items, records. simpl.
  rewrite app_nil_r. apply sort_desc_sorted.
Qed.

Lemma search_blank_is_list_witness :
  get_search Pattern.RegExp_i Ref.st2 1 (Some (String "009" "  "))
  = get_items Ref.st2 1 /\
  newest_first
    (records (get_search Pattern.RegExp_i Ref.st2 1 (Some (String "009" "  ")))).
Proof.
  apply search_blank_is_list. simpl. repeat constructor.
Defined.

(** ** Validation on create and update *)

(** C10: on update the validation runs before the lookup: whenever the
    title, the encrypted payload or the iv of the request is absent or
    empty, the answer is the validation failure (status 400) and the store
    is untouched, whatever the object id is, also when it does not exist or
    belongs to another owner. *)
Theorem update_validates_before_lookup (st : Store) (now : Z)
    (u i : ObjectId) (b : ReqBody) :
  missing_required b = true ->
  put_items st now u i b = (st, json_message 400 false "Validation failed").
Proof.
  intros M. rewrite put_items_eq, M. reflexivity.
Qed.

Lemma update_validates_before_lookup_witness :
  findOne Ref.st2 7 1 = None /\
  findOne Ref.st2 1 1 = None /\
  put_items Ref.st2 3000 1 7 (mkReqBody (Some "") (Some "c0de") (Some "0f") None)
  = (Ref.st2, json_message 400 false "Validation failed") /\
  put_items Ref.st2 3000 1 1 (mkReqBody (Some "t") None (Some "0f") None)
  = (Ref.st2, json_message 400 false "Validation failed").
Proof.
  split; [reflexivity|]. split; [reflexivity|]. split.
  - apply update_validates_before_lookup. reflexivity.
  - apply update_validates_before_lookup. reflexivity.
Defined.



(** ** Update *)

Lemma lookup_replaced (st : Store) (old d : VaultItem) :
  wf st -> In old (docs st) -> _id d = _id old ->
  lookup (mkStore (replace_doc d (docs st)) (nextId st)) (_id old) = Some d.
Proof.
  intros W Hin Hid. unfold lookup. simpl. apply find_id_iff.
  - rewrite map_id_replace. apply W.
  - split; [|exact Hid]. apply In_replace; [apply W| |auto].
    rewrite Hid. apply in_map, Hin.
Qed.

(** What an accepted update of a record of the caller does. *)
Lemma put_items_found (st : Store) (now : Z) (u i : ObjectId) (b : ReqBody)
    (old : VaultItem) :
  wf st -> missing_required b = false -> findOne st i u = Some old ->
  exists d,
    put_items st now u i b
    = (fst (put_items st now u i b), json_item 200 "Item updated successfully" d) /\
    lookup (fst (put_items st now u i b)) i = Some d /\
    d = (if changes old b then updated_item old now b else old) /\
    title d = field_value (b_title b) /\
    encryptedData d = field_value (b_encryptedData b) /\
    iv d = field_value (b_iv b) /\
    tags d = or_empty (b_tags b) /\
    _id d = _id old /\ userId d = userId old /\ createdAt d = createdAt old.
Proof.
  intros W M F. rewrite put_items_eq, M, F.
  pose proof (findOne_spec _ _ _ _ F) as (Hin & Hid & Hu).
  destruct (changes old b) eqn:C; simpl.
  - exists (updated_item old now b). repeat split; try reflexivity.
    rewrite <- Hid. apply lookup_replaced; auto.
  - exists old. destruct (unchanged_fields old b C) as (H1 & H2 & H3 & H4).
    repeat split; auto.
    apply (wf_lookup_iff _ _ _ W). auto.
Qed.



Lemma accepted_body_fields (b : ReqBody) :
  missing_required b = false ->
  exists t e v,
    b_title b = Some t /\ b_encryptedData b = Some e /\ b_iv b = Some v.
Proof.
  unfold missing_required. intros H.
  apply orb_false_iff in H as [H H3]. apply orb_false_iff in H as [H1 H2].
  destruct (b_title b) as [t|]; [|discriminate].
  destruct (b_encryptedData b) as [e|]; [|discriminate].
  destruct (b_iv b) as [v|]; [|discriminate].
  exists t, e, v. auto.
Qed.

Lemma lookup_created (st : Store) (now : Z) (u : ObjectId) (b : ReqBody) :
  wf st -> missing_required b = false ->
  wf (fst (post_items st now u b)) /\
  lookup (fst (post_items st now u b)) (nextId st) = Some (created_item st now u b).
Proof.
  intros W M.
  pose proof (handle_wf (fun _ => None) (fun _ _ => false) (fun _ => None)
                st (PostItems now u b) W) as W'. simpl in W'.
  split; [exact W'|]. apply (wf_lookup_iff _ _ _ W').
  rewrite post_items_eq, M. simpl. split; [|reflexivity].
  apply in_or_app. right. left. reflexivity.
Qed.

Lemma search_records (E : string -> option (string -> bool)) (st : Store)
    (u : ObjectId) (q : option string) (d : VaultItem) :
  In d (records (get_search E st u q)) -> In d (docs st) /\ userId d = u.
Proof.
  unfold get_search, records.
  destruct (falsy q || String.eqb (trim (field_value q)) ""); simpl.
  - rewrite app_nil_r. apply find_by_user_In.
  - destruct (E (field_value q)) as [re|]; simpl; [|contradiction].
    rewrite app_nil_r, sort_desc_In, filter_In. unfold search_filter.
    intros [H1 H2]. apply andb_true_iff in H2 as [H2 _].
    apply Nat.eqb_eq in H2. auto.
Qed.

(** ** Sequences of requests *)

Section Traces.

Variable RegExp_i : string -> option (string -> bool).
Variable bcrypt_compare : string -> string -> bool.
Variable users : ObjectId -> option User.

Local Abbreviation handle := (handle RegExp_i bcrypt_compare users).
Local Abbreviation run := (run RegExp_i bcrypt_compare users).


(** The record a request answered with carries the encrypted payload and
    the iv the request supplied, and the caller reads that very record
    back after any requests that are not updates or deletes of it. *)
Lemma answered_item_round_trip (st : Store) (r : Request) (rs : list Request)
    (d : VaultItem) :
  wf st -> item (snd (handle st r)) = Some d -> quiet (_id d) rs = true ->
  supplied r = Some (encryptedData d, iv d) /\
  read_back (run (fst (handle st r)) rs) (caller r) (_id d) = Some d /\
  In d (records (get_search RegExp_i (run (fst (handle st r)) rs) (caller r) None)) /\
  (forall q x,
      In x (records (get_search RegExp_i (run (fst (handle st r)) rs) (caller r) q)) ->
      _id x = _id d -> x = d).
Proof.
  intros W I Q.
  assert (H : supplied r = Some (encryptedData d, iv d) /\
              lookup (fst (handle st r)) (_id d) = Some d /\
              userId d = caller r).
  { destruct r as [u|now u b|now u i b|u i|u q|u k]; simpl in *;
      try discriminate.
    - rewrite post_items_eq in *. destruct (missing_required b) eqn:M;
        [discriminate|].
      simpl in I. inversion I; subst d; clear I.
      destruct (accepted_body_fields b M) as (t & e & v & Ht & He & Hv).
      destruct (lookup_created st now u b W M) as [_ L].
      rewrite post_items_eq, M in L. simpl in *.
      rewrite He, Hv. simpl. auto.
    - destruct (missing_required b) eqn:M.
      { rewrite put_items_eq, M in I. discriminate. }
      destruct (findOne st i u) as [old|] eqn:F.
      2:{ rewrite put_items_eq, M, F in I. discriminate. }
      destruct (put_items_found st now u i b old W M F)
        as (x & E & L & _ & _ & H2 & H3 & _ & H5 & H6 & _).
      rewrite E in I. simpl in I. inversion I; subst x; clear I.
      destruct (accepted_body_fields b M) as (t & e & v & Ht & He & Hv).
      apply findOne_spec in F as (_ & Hi & Hu).
      rewrite He, Hv, H2, H3, He, Hv. simpl.
      split; [reflexivity|]. split; [|congruence].
      rewrite H5, Hi. exact L.
    - rewrite delete_items_eq in I. destruct (findOne st i u); discriminate.
    - unfold get_search in I.
      destruct (falsy q || String.eqb (trim (field_value q)) "");
        [discriminate|].
      destruct (RegExp_i (field_value q)); discriminate.
    - unfold verify_master_key in I. destruct (falsy k); [discriminate|].
      destruct (users u) as [user|]; [|discriminate].
      destruct (bcrypt_compare _ _); discriminate. }
  destruct H as (S & L & U). split; [exact S|].
  assert (W' : wf (run (fst (handle st r)) rs)) by (apply run_wf, handle_wf, W).
  assert (L' : lookup (run (fst (handle st r)) rs) (_id d) = Some d)
    by (apply run_frame; [apply handle_wf, W|exact Q|exact L]).
  assert (R : read_back (run (fst (handle st r)) rs) (caller r) (_id d) = Some d)
    by (apply read_back_lookup; assumption).
  split; [exact R|]. split.
  - unfold read_back, get_items in R. simpl in R. apply find_some in R as [R _].
    unfold get_search, records. simpl. rewrite app_nil_r. exact R.
  - intros q x Hx Hid. apply search_records in Hx as [Hx _].
    apply (wf_lookup_iff _ _ _ W') in L' as [Hd _].
    apply (NoDup_ids_unique (docs (run (fst (handle st r)) rs)) d x);
      [apply W'|exact Hd|exact Hx|exact Hid].
Qed.

(** C8: a create with an accepted body answers 201 with a record under
    a fresh object id, and an update with an accepted body of a record of
    the caller answers 200 with the record; in both cases the record
    carries the encrypted payload and the iv of the request character for
    character, it is the document stored under its object id, and the
    owner reads that very record back, through the list route, through the
    search route on a blank query and through any search that returns a
    record with its object id, after any requests that are not updates
    or deletes of it. *)
Theorem ciphertext_round_trip (st : Store) (now : Z) (u i : ObjectId)
    (b : ReqBody) (rs : list Request) :
  wf st -> missing_required b = false ->
  exists e v,
    b_encryptedData b = Some e /\ b_iv b = Some v /\
    (exists d,
        post_items st now u b
        = (fst (post_items st now u b),
           json_item 201 "Item saved successfully" d) /\
        _id d = nextId st /\ lookup st (_id d) = None /\
        encryptedData d = e /\ iv d = v /\
        lookup (fst (post_items st now u b)) (_id d) = Some d /\
        (quiet (_id d) rs = true ->
         read_back (run (fst (post_items st now u b)) rs) u (_id d) = Some d /\
         In d (records (get_search RegExp_i
                          (run (fst (post_items st now u b)) rs) u None)) /\
         forall q x,
           In x (records (get_search RegExp_i
                            (run (fst (post_items st now u b)) rs) u q)) ->
           _id x = _id d -> x = d)) /\
    (forall old, findOne st i u = Some old ->
       exists d,
         put_items st now u i b
         = (fst (put_items st now u i b),
            json_item 200 "Item updated successfully" d) /\
         _id d = i /\
         encryptedData d = e /\ iv d = v /\
         lookup (fst (put_items st now u i b)) i = Some d /\
         (quiet i rs = true ->
          read_back (run (fst (put_items st now u i b)) rs) u i = Some d /\
          In d (records (get_search RegExp_i
                           (run (fst (put_items st now u i b)) rs) u None)) /\
          forall q x,
            In x (records (get_search RegExp_i
                             (run (fst (put_items st now u i b)) rs) u q)) ->
            _id x = i -> x = d)).
Proof.
  intros W M.
  destruct (accepted_body_fields b M) as (t & e & v & Ht & He & Hv).
  exists e, v. split; [exact He|]. split; [exact Hv|]. split.
  - exists (created_item st now u b).
    destruct (lookup_created st now u b W M) as [_ L].
    assert (P : post_items st now u b
                = (fst (post_items st now u b),
                   json_item 201 "Item saved successfully"
                     (created_item st now u b)))
      by (rewrite post_items_eq, M; reflexivity).
    split; [exact P|]. split; [reflexivity|]. split.
    { apply find_id_none. intros H. apply in_map_iff in H as (x & Hx & Hin).
      pose proof (wf_below st x W Hin) as B. simpl in Hx. lia. }
    split; [simpl; rewrite He; reflexivity|].
    split; [simpl; rewrite Hv; reflexivity|].
    split; [exact L|].
    intros Q.
    destruct (answered_item_round_trip st (PostItems now u b) rs
                (created_item st now u b) W) as (_ & R1 & R2 & R3).
    + simpl. rewrite P. reflexivity.
    + exact Q.
    + repeat split; assumption.
  - intros old F.
    destruct (put_items_found st now u i b old W M F)
      as (d & E & L & _ & _ & H2 & H3 & _ & H5 & _).
    pose proof (findOne_spec _ _ _ _ F) as (_ & Hi & _).
    assert (Hid : _id d = i) by congruence.
    exists d. split; [exact E|]. split; [exact Hid|].
    split; [rewrite H2, He; reflexivity|].
    split; [rewrite H3, Hv; reflexivity|].
    split; [exact L|].
    intros Q.
    destruct (answered_item_round_trip st (PutItems now u i b) rs d W)
      as (_ & R1 & R2 & R3).
    + simpl. rewrite E. reflexivity.
    + rewrite Hid. exact Q.
    + rewrite Hid in R1, R3. repeat split; assumption.
Qed.

End Traces.



Lemma ciphertext_round_trip_witness :
  (exists d,
      snd (post_items Ref.st1 2000 2 (Ref.body "mail" "beef02" "0a0b0c" None))
      = json_item 201 "Item saved successfully" d /\
      encryptedData d = "beef02" /\ iv d = "0a0b0c" /\
      read_back
        (run Pattern.RegExp_i Ref.compare Ref.users
           (fst (post_items Ref.st1 2000 2 (Ref.body "mail" "beef02" "0a0b0c" None)))
           [PutItems 3000 1 0 (Ref.body "bank" "c0de" "0f" None); GetItems 2])
        2 (_id d) = Some d) /\
  (exists d,
      snd (put_items Ref.st1 2000 1 0 (Ref.body "mail" "beef02" "0a0b0c" None))
      = json_item 200 "Item updated successfully" d /\
      encryptedData d = "beef02" /\ iv d = "0a0b0c" /\
      read_back
        (run Pattern.RegExp_i Ref.compare Ref.users
           (fst (put_items Ref.st1 2000 1 0 (Ref.body "mail" "beef02" "0a0b0c" None)))
           [PostItems 3000 2 (Ref.body "wifi" "c0de" "0f" None); GetItems 2])
        1 0 = Some d).
Proof.
  split.
  - destruct (ciphertext_round_trip Pattern.RegExp_i Ref.compare Ref.users
                Ref.st1 2000 2 0 (Ref.body "mail" "beef02" "0a0b0c" None)
                [PutItems 3000 1 0 (Ref.body "bank" "c0de" "0f" None); GetItems 2]
                st1_wf eq_refl)
      as (e & v & He & Hv & (d & P & Hid & _ & H1 & H2 & _ & R) & _).
    injection He as <-. injection Hv as <-.
    exists d. rewrite P. split; [reflexivity|]. split; [exact H1|].
    split; [exact H2|]. rewrite Hid in R. rewrite Hid. apply (R eq_refl).
  - destruct (ciphertext_round_trip Pattern.RegExp_i Ref.compare Ref.users
                Ref.st1 2000 1 0 (Ref.body "mail" "beef02" "0a0b0c" None)
                [PostItems 3000 2 (Ref.body "wifi" "c0de" "0f" None); GetItems 2]
                st1_wf eq_refl)
      as (e & v & He & Hv & _ & U).
    injection He as <-. injection Hv as <-.
    destruct (U Ref.bank eq_refl) as (d & P & _ & H1 & H2 & _ & R).
    exists d. rewrite P. split; [reflexivity|]. split; [exact H1|].
    split; [exact H2|]. apply (R eq_refl).
Defined.

(** ** Ownership *)

Lemma foreign_replace (u : ObjectId) (old d : VaultItem) (l : list VaultItem) :
  NoDup (map _id l) -> In old l -> _id d = _id old ->
  userId old = u -> userId d = u ->
  filter (fun x => negb (userId x =? u)%nat) (replace_doc d l)
  = filter (fun x => negb (userId x =? u)%nat) l.
Proof.
  intros N Hin Hid Ho Hd. induction l as [|y l IH]; simpl; [reflexivity|].
  inversion N as [|? ? Hy N']; subst.
  destruct (_id y =? _id d)%nat eqn:E; simpl.
  - apply Nat.eqb_eq in E.
    assert (y = old) by
      (apply (NoDup_ids_unique (y :: l) old y N); simpl; auto; congruence).
    subst y. rewrite Hd, Nat.eqb_refl. simpl. reflexivity.
  - apply Nat.eqb_neq in E. destruct Hin as [->|Hin]; [congruence|].
    rewrite (IH N' Hin). reflexivity.
Qed.

Lemma foreign_remove (u i : ObjectId) (l : list VaultItem) :
  filter (fun x => negb (userId x =? u)%nat)
    (remove_first (fun d => (_id d =? i)%nat && (userId d =? u)%nat) l)
  = filter (fun x => negb (userId x =? u)%nat) l.
Proof.
  induction l as [|y l IH]; simpl; [reflexivity|].
  destruct (_id y =? i)%nat; destruct (userId y =? u)%nat eqn:E; simpl;
    rewrite ?E; simpl; rewrite ?IH; reflexivity.
Qed.

Section Ownership.

Variable RegExp_i : string -> option (string -> bool).
Variable bcrypt_compare : string -> string -> bool.
Variable users : ObjectId -> option User.

Local Abbreviation handle := (handle RegExp_i bcrypt_compare users).
Local Abbreviation run := (run RegExp_i bcrypt_compare users).

(** Every record a response carries is owned by the caller. *)
Lemma handle_owned (st : Store) (r : Request) (d : VaultItem) :
  In d (records (snd (handle st r))) -> userId d = caller r.
Proof.
  destruct r as [u|now u b|now u i b|u i|u q|u k]; simpl.
  - unfold records. simpl. rewrite app_nil_r. intros H.
    apply find_by_user_In in H. apply H.
  - rewrite post_items_eq. destruct (missing_required b); simpl; [tauto|].
    intros [<-|[]]. reflexivity.
  - rewrite put_items_eq. destruct (missing_required b); simpl; [tauto|].
    destruct (findOne st i u) as [old|] eqn:F; simpl; [|tauto].
    apply findOne_spec in F as (_ & _ & Hu).
    destruct (changes old b); simpl; intros [<-|[]]; exact Hu.
  - rewrite delete_items_eq. destruct (findOne st i u); simpl; tauto.
  - intros H. apply search_records in H. apply H.
  - unfold verify_master_key. destruct (falsy k); simpl; [tauto|].
    destruct (users u); simpl; [|tauto].
    destruct (bcrypt_compare _ _); simpl; tauto.
Qed.

(** No request changes a document the caller does not own. *)
Lemma handle_foreign (st : Store) (r : Request) :
  wf st -> foreign (caller r) (fst (handle st r)) = foreign (caller r) st.
Proof.
  intros W. unfold foreign.
  destruct r as [u|now u b|now u i b|u i|u q|u k]; simpl; auto.
  - rewrite post_items_eq. destruct (missing_required b); simpl; [reflexivity|].
    rewrite filter_app. simpl. rewrite Nat.eqb_refl. simpl. apply app_nil_r.
  - rewrite put_items_eq. destruct (missing_required b); simpl; [reflexivity|].
    destruct (findOne st i u) as [old|] eqn:F; simpl; [|reflexivity].
    apply findOne_spec in F as (Hin & _ & Hu).
    destruct (changes old b); simpl; [|reflexivity].
    apply (foreign_replace u old); auto. apply W.
  - rewrite delete_items_eq. destruct (findOne st i u); simpl; [|reflexivity].
    apply foreign_remove.
Qed.

(** The lookup by object id and owner fails for every caller but the
    owner, as it does for an object id that is not in the collection. *)
Lemma findOne_other (st : Store) (r : VaultItem) (b : ObjectId) :
  wf st -> In r (docs st) -> userId r <> b -> findOne st (_id r) b = None.
Proof.
  intros W Hin Hne. rewrite (wf_findOne _ _ _ W).
  assert (L : lookup st (_id r) = Some r) by (apply wf_lookup_iff; auto).
  rewrite L. apply Nat.eqb_neq in Hne. rewrite Hne. reflexivity.
Qed.

Lemma findOne_absent (st : Store) (j b : ObjectId) :
  lookup st j = None -> findOne st j b = None.
Proof.
  unfold lookup, findOne. intros H.
  destruct (find (fun d => (_id d =? j)%nat && (userId d =? b)%nat) (docs st))
    as [d|] eqn:F; [|reflexivity].
  apply find_some in F as [Hin Hd]. apply andb_true_iff in Hd as [Hd _].
  pose proof (find_none _ _ H d Hin) as Hn. simpl in Hn. congruence.
Qed.

(** C4, as the code has it: for a record [r] of owner [a] and any other
    caller [b], an update by [b] on the object id of [r] is answered
    exactly like an update of an object id that is not in the collection
    (not found when the body passes the validation, the validation failure
    otherwise) and a delete by [b] is answered not found, the store being
    left as it was; the list and the search of [b] never include [r]; and
    for every request, the records of the response are owned by the caller
    and the documents of the other owners are left as they were. *)
Theorem cross_owner_isolation (st : Store) (a b : ObjectId) (r : VaultItem) :
  wf st -> In r (docs st) -> userId r = a -> a <> b ->
  (forall now body,
      put_items st now b (_id r) body
      = (st, if missing_required body
             then json_message 400 false "Validation failed"
             else json_message 404 false "Item not found")) /\
  delete_items st b (_id r) = (st, json_message 404 false "Item not found") /\
  (forall j now body,
      lookup st j = None ->
      put_items st now b (_id r) body = put_items st now b j body /\
      delete_items st b (_id r) = delete_items st b j) /\
  ~ In r (records (get_items st b)) /\
  (forall q, ~ In r (records (get_search RegExp_i st b q))) /\
  (forall req,
      (forall d, In d (records (snd (handle st req))) -> userId d = caller req) /\
      foreign (caller req) (fst (handle st req)) = foreign (caller req) st).
Proof.
  intros W Hin Ha Hab.
  assert (F : findOne st (_id r) b = None)
    by (apply findOne_other; auto; congruence).
  split; [|split; [|split; [|split; [|split]]]].
  - intros now body. rewrite put_items_eq, F.
    destruct (missing_required body); reflexivity.
  - rewrite delete_items_eq, F. reflexivity.
  - intros j now body L. pose proof (findOne_absent st j b L) as Fj.
    rewrite !put_items_eq, !delete_items_eq, F, Fj. auto.
  - unfold records, get_items. simpl. rewrite app_nil_r. intros H.
    apply find_by_user_In in H. destruct H as [_ H]. congruence.
  - intros q H. apply search_records in H. destruct H as [_ H]. congruence.
  - intros req. split.
    + intros d. apply handle_owned.
    + apply handle_foreign, W.
Qed.

(** C9, as the code has it: once the owner has deleted a record, whatever
    requests follow, a delete of its object id by any caller is answered
    not found, an update of it by any caller is answered not found when the
    body passes the validation and the validation failure otherwise, the
    store being left as it was, and no list or search result of any caller
    contains a record with that object id. *)
Theorem delete_is_permanent (st : Store) (u i : ObjectId) (rs : list Request) :
  let st' := run (fst (delete_items st u i)) rs in
  wf st -> status (snd (delete_items st u i)) = 200%nat ->
  forall c,
    delete_items st' c i = (st', json_message 404 false "Item not found") /\
    (forall now b,
        put_items st' now c i b
        = (st', if missing_required b
                then json_message 400 false "Validation failed"
                else json_message 404 false "Item not found")) /\
    (forall d, In d (records (get_items st' c)) -> _id d <> i) /\
    (forall q d, In d (records (get_search RegExp_i st' c q)) -> _id d <> i).
Proof.
  intros st' W D c.
  assert (L : lookup st' i = None).
  { unfold st'. rewrite delete_items_eq in *.
    destruct (findOne st i u) as [old|] eqn:F; [|discriminate].
    pose proof (findOne_spec _ _ _ _ F) as (Hin & Hi & _).
    pose proof (handle_wf RegExp_i bcrypt_compare users st (DeleteItems u i) W)
      as W'.
    simpl in W'. rewrite delete_items_eq, F in W'.
    apply run_gone; [exact W'| |].
    - simpl. rewrite <- Hi. apply wf_below; assumption.
    - apply find_id_none. simpl. intros H.
      apply in_map_iff in H as (x & Hx & Hx').
      apply (In_remove_first _ _ old) in Hx'; [|apply W|exact F].
      destruct Hx' as [_ Hne]. congruence. }
  pose proof (findOne_absent st' i c L) as F.
  assert (G : forall d, In d (docs st') -> _id d <> i).
  { intros d Hd E. apply find_id_none in L. apply L. rewrite <- E.
    apply in_map, Hd. }
  split; [|split; [|split]].
  - rewrite delete_items_eq, F. reflexivity.
  - intros now b. rewrite put_items_eq, F.
    destruct (missing_required b); reflexivity.
  - intros d H. apply G. unfold records, get_items in H. simpl in H.
    rewrite app_nil_r in H. apply find_by_user_In in H. apply H.
  - intros q d H. apply G. apply search_records in H. apply H.
Qed.

End Ownership.

Lemma cross_owner_isolation_witness :
  delete_items Ref.st2 2 0 = (Ref.st2, json_message 404 false "Item not found") /\
  put_items Ref.st2 3000 2 0 (Ref.body "mine" "c0de" "0f" None)
  = put_items Ref.st2 3000 2 7 (Ref.body "mine" "c0de" "0f" None) /\
  ~ In Ref.bank (records (get_search Pattern.RegExp_i Ref.st2 2 (Some "bank"))).
Proof.
  assert (N : 1%nat <> 2%nat) by discriminate.
  destruct (cross_owner_isolation Pattern.RegExp_i Ref.compare Ref.users
              Ref.st2 1 2 Ref.bank st2_wf (or_introl eq_refl) eq_refl N)
    as (_ & H2 & H3 & _ & H5 & _).
  split; [exact H2|]. split; [|apply H5].
  apply (H3 7%nat 3000 (Ref.body "mine" "c0de" "0f" None) eq_refl).
Defined.

(** C4 fails as stated: an update by another caller on the object id of a
    record, sent with an empty title, is answered with the validation
    failure (status 400), not with not found (status 404). *)
Lemma foreign_update_with_empty_title :
  userId Ref.bank = 1%nat /\
  put_items Ref.st2 3000 2 (_id Ref.bank)
    (mkReqBody (Some "") (Some "c0de") (Some "0f") None)
  = (Ref.st2, json_message 400 false "Validation failed") /\
  status (json_message 400 false "Validation failed") <> 404%nat.
Proof. split; [reflexivity|]. split; [reflexivity|discriminate]. Qed.

Lemma delete_is_permanent_witness :
  delete_items
    (run Pattern.RegExp_i Ref.compare Ref.users (fst (delete_items Ref.st2 1 0))
       [PostItems 4000 1 (Ref.body "bank" "cAfe01" "000102" None); GetItems 1])
    1 0
  = (run Pattern.RegExp_i Ref.compare Ref.users (fst (delete_items Ref.st2 1 0))
       [PostItems 4000 1 (Ref.body "bank" "cAfe01" "000102" None); GetItems 1],
     json_message 404 false "Item not found").
Proof.
  apply (delete_is_permanent Pattern.RegExp_i Ref.compare Ref.users Ref.st2 1 0
           [PostItems 4000 1 (Ref.body "bank" "cAfe01" "000102" None); GetItems 1]
           st2_wf eq_refl 1%nat).
Defined.

(** C9 fails as stated: after the owner has deleted the record, an update
    of its object id sent with an empty title is answered with the
    validation failure (status 400), not with not found (status 404). *)
Lemma update_of_deleted_with_empty_title :
  status (snd (delete_items Ref.st1 1 0)) = 200%nat /\
  snd (put_items (fst (delete_items Ref.st1 1 0)) 3000 1 0
         (mkReqBody (Some "") (Some "c0de") (Some "0f") None))
  = json_message 400 false "Validation failed" /\
  status (json_message 400 false "Validation failed") <> 404%nat.
Proof. split; [reflexivity|]. split; [reflexivity|discriminate]. Qed.

(** ** The master key *)

(** C1, as the code has it: for an account, the answer follows the
    verdict of [bcrypt.compare] on the presented key and the stored
    verifier, whatever that comparison is.  An absent or empty key is
    answered 400 with the message that the master key is required, and the
    comparison is not consulted; a non-empty key the comparison accepts is
    answered 200 with [success] true; a non-empty key the comparison
    rejects is answered 400 with [success] false and the message that the
    master key is invalid.  A rejected key is thus a failure response with
    the status of the empty key, told apart from it by the message only;
    the answer is 200 for no other key, and the store is left as it was. *)
Theorem verify_master_key_answers (E : string -> option (string -> bool))
    (compare : string -> string -> bool) (users : ObjectId -> option User)
    (st : Store) (u : ObjectId) (user : User) (key : option string) :
  users u = Some user ->
  verify_master_key compare users u key
  = (if falsy key then json_message 400 false "Master key is required"
     else if compare (field_value key) (masterKey user)
          then json_message 200 true "Master key verified successfully"
          else json_message 400 false "Invalid master key") /\
  (status (verify_master_key compare users u key) = 200%nat <->
   exists k, key = Some k /\ k <> "" /\ compare k (masterKey user) = true) /\
  (forall k, k <> "" -> compare k (masterKey user) = false ->
     verify_master_key compare users u (Some k)
     = json_message 400 false "Invalid master key" /\
     status (verify_master_key compare users u (Some k))
     = status (verify_master_key compare users u (Some ""))) /\
  handle E compare users st (VerifyMasterKey u key)
  = (st, verify_master_key compare users u key).
Proof.
  intros Hu. cbn [handle]. unfold verify_master_key. rewrite Hu.
  split; [reflexivity|]. split; [|split; [|reflexivity]].
  - destruct key as [k|]; simpl.
    + destruct (String.eqb k "") eqn:Ek; simpl.
      * apply String.eqb_eq in Ek. split; [discriminate|].
        intros (k' & Hk & Hne & _). congruence.
      * apply String.eqb_neq in Ek.
        destruct (compare k (masterKey user)) eqn:C; simpl.
        -- split; [intros _; exists k; auto|reflexivity].
        -- split; [discriminate|].
           intros (k' & Hk & _ & Hc). inversion Hk; subst k'. congruence.
    + split; [discriminate|]. intros (k' & Hk & _). discriminate.
  - intros k Hne C. apply String.eqb_neq in Hne. simpl. rewrite Hne, C.
    split; reflexivity.
Qed.

Lemma verify_master_key_answers_witness :
  verify_master_key Ref.compare Ref.users 1 (Some "correct horse")
  = json_message 200 true "Master key verified successfully" /\
  verify_master_key Ref.compare Ref.users 1 None
  = json_message 400 false "Master key is required".
Proof.
  split.
  - destruct (verify_master_key_answers Pattern.RegExp_i Ref.compare Ref.users
                Ref.st1 1 (mkUser "$2a$correct horse") (Some "correct horse")
                eq_refl) as [H _].
    exact H.
  - destruct (verify_master_key_answers Pattern.RegExp_i Ref.compare Ref.users
                Ref.st1 1 (mkUser "$2a$correct horse") None eq_refl) as [H _].
    exact H.
Defined.

(** C1 fails as stated: a non-empty key that the comparison rejects, here
    one that misses the accepted key by its last character, is not
    answered with a result false: it is answered with the failure status
    400, the status of the answer to an empty key. *)
Lemma wrong_key_is_answered_as_a_failure :
  verify_master_key Ref.compare Ref.users 1 (Some "correct horsf")
  = json_message 400 false "Invalid master key" /\
  verify_master_key Ref.compare Ref.users 1 (Some "")
  = json_message 400 false "Master key is required" /\
  status (verify_master_key Ref.compare Ref.users 1 (Some "correct horsf"))
  = status (verify_master_key Ref.compare Ref.users 1 (Some "")).
Proof. repeat split. Qed.

(** ** The pattern engine on literal queries *)

Lemma prefix_ci_iff (q s : string) :
  prefix_ci q s = true <-> exists post, lower s = lower q ++ post.
Proof.
  revert s. induction q as [|a q IH]; intros s; simpl.
  - split; [intros _; exists (lower s); reflexivity|reflexivity].
  - destruct s as [|c s]; simpl.
    + split; [discriminate|]. intros [post H]. discriminate.
    + rewrite andb_true_iff, Ascii.eqb_eq, IH. split.
      * intros [E [post H]]. exists post. rewrite E, H. reflexivity.
      * intros [post H]. injection H as E1 E2. split; [symmetry; exact E1|].
        exists post. exact E2.
Qed.

(** [includes_ci] decides [contains_ci]. *)
Lemma includes_ci_iff (q s : string) :
  includes_ci q s = true <-> contains_ci q s.
Proof.
  unfold contains_ci. induction s as [|c s IH]; simpl.
  - rewrite orb_false_r, prefix_ci_iff. split.
    + intros [post H]. exists "", post. exact H.
    + intros (pre & post & H). destruct pre as [|x pre]; simpl in H.
      * exists post. exact H.
      * discriminate.
  - rewrite orb_true_iff, prefix_ci_iff, IH. split.
    + intros [[post H]|(pre & post & H)].
      * exists "", post. exact H.
      * exists (String (fold_case c) pre), post. simpl. rewrite H. reflexivity.
    + intros (pre & post & H). destruct pre as [|x pre]; simpl in H.
      * left. exists post. exact H.
      * right. injection H as _ E2. exists pre, post. exact E2.
Qed.

Lemma match_prefix_alt (a b : Pattern.regex) (s : string) :
  Pattern.match_prefix (Pattern.Alt a b) s
  = Pattern.match_prefix a s || Pattern.match_prefix b s.
Proof.
  revert a b. induction s as [|c s IH]; intros a b; simpl.
  - rewrite !orb_false_r. reflexivity.
  - rewrite IH.
    destruct (Pattern.nullable a), (Pattern.nullable b); simpl;
      rewrite ?orb_true_r; reflexivity.
Qed.

Lemma match_prefix_void_cat (r : Pattern.regex) (s : string) :
  Pattern.match_prefix (Pattern.Cat Pattern.Void r) s = false.
Proof. induction s as [|c s IH]; simpl; [reflexivity|exact IH]. Qed.

Lemma match_prefix_eps_cat (r : Pattern.regex) (s : string) :
  Pattern.match_prefix (Pattern.Cat Pattern.Eps r) s = Pattern.match_prefix r s.
Proof.
  destruct s as [|c s]; simpl; [reflexivity|].
  rewrite match_prefix_alt, match_prefix_void_cat. reflexivity.
Qed.

Lemma match_prefix_literal (q s : string) :
  Pattern.match_prefix (literal_regex q) s = prefix_ci q s.
Proof.
  revert s. induction q as [|a q IH]; intros s.
  - destruct s; reflexivity.
  - destruct s as [|c s]; [reflexivity|].
    change (literal_regex (String a q))
      with (Pattern.Cat (Pattern.Chr a) (literal_regex q)).
    simpl. destruct (Ascii.eqb (fold_case a) (fold_case c)); simpl.
    + rewrite match_prefix_eps_cat. apply IH.
    + apply match_prefix_void_cat.
Qed.

Lemma test_literal (q s : string) :
  Pattern.test (literal_regex q) s = includes_ci q s.
Proof.
  induction s as [|c s IH]; cbn [Pattern.test includes_ci];
    rewrite match_prefix_literal, ?IH; reflexivity.
Qed.

Lemma is_char_eqb (c x : ascii) :
  Pattern.is_char c (String x "") = Ascii.eqb c x.
Proof. unfold Pattern.is_char. simpl. apply andb_true_r. Qed.

Lemma parse_plain (stack : list Pattern.frame) (cur : Pattern.frame)
    (c : ascii) (rest : string) :
  Pattern.isMeta c = false ->
  Pattern.parse stack cur (String c rest)
  = Pattern.parse stack (Pattern.push_atom (Pattern.Chr c) cur) rest.
Proof.
  intros M. pose proof M as H. unfold Pattern.isMeta in H. simpl existsb in H.
  repeat (apply orb_false_iff in H as [? H]).
  cbn [Pattern.parse]. unfold Pattern.quantifier.
  rewrite !is_char_eqb.
  repeat match goal with E : Ascii.eqb c _ = false |- _ => rewrite E; clear E end.
  rewrite M. reflexivity.
Qed.

Lemma parse_literal (q : string) (cur : Pattern.frame) :
  literal q = true ->
  exists o,
    Pattern.parse [] cur q
    = Pattern.Compiled
        (Pattern.frame_regex
           (Pattern.mkFrame (Pattern.alts cur)
              (rev (map Pattern.Chr (list_ascii_of_string q)) ++ Pattern.atoms cur)
              o)).
Proof.
  unfold literal. revert cur. induction q as [|c q IH]; intros cur H.
  - exists (Pattern.open_atom cur). destruct cur; reflexivity.
  - simpl in H. apply andb_true_iff in H as [Hc Hq].
    apply andb_true_iff in Hc as [Hc _].
    apply negb_true_iff in Hc. rewrite (parse_plain _ _ _ _ Hc).
    destruct (IH (Pattern.push_atom (Pattern.Chr c) cur) Hq) as [o E].
    exists o. rewrite E. simpl. rewrite <- app_assoc. reflexivity.
Qed.

Lemma compile_literal (q : string) :
  literal q = true -> Pattern.compile q = Pattern.Compiled (literal_regex q).
Proof.
  intros H. destruct (parse_literal q Pattern.empty_frame H) as [o E].
  unfold Pattern.compile. rewrite E.
  unfold Pattern.frame_regex, Pattern.close_seq, literal_regex. simpl.
  rewrite app_nil_r, rev_involutive. reflexivity.
Qed.

(** The fragment engine treats every pattern the way the fragment does. *)
Lemma fragment_agrees (p : string) : Pattern.agrees Pattern.RegExp_i p.
Proof.
  unfold Pattern.agrees, Pattern.RegExp_i.
  destruct (Pattern.compile p); [|reflexivity|exact I].
  eexists. split; [reflexivity|reflexivity].
Qed.

Lemma trimEnd_empty (s : string) :
  trimEnd s = "" -> Forall (fun c => isWhiteSpace c = true) (list_ascii_of_string s).
Proof.
  induction s as [|c s IH]; simpl; intros H; [constructor|].
  destruct (trimEnd s) eqn:E; [|discriminate].
  destruct (isWhiteSpace c) eqn:Wc; [|discriminate].
  constructor; auto.
Qed.

Lemma trimStart_Forall (s : string) :
  Forall (fun c => isWhiteSpace c = true) (list_ascii_of_string (trimStart s)) ->
  Forall (fun c => isWhiteSpace c = true) (list_ascii_of_string s).
Proof.
  induction s as [|c s IH]; simpl; intros H; [constructor|].
  destruct (isWhiteSpace c) eqn:Wc; [|exact H].
  constructor; auto.
Qed.

(** The test of the search route finds exactly the blank queries. *)
Lemma blank_iff (q : option string) :
  falsy q || String.eqb (trim (field_value q)) "" = true <-> blank q.
Proof.
  destruct q as [s|]; simpl; [|tauto]. split.
  - intros H. apply orb_true_iff in H as [H|H]; apply String.eqb_eq in H.
    + subst s. constructor.
    + apply trimStart_Forall, trimEnd_empty, H.
  - intros H. rewrite (trim_blank s H). apply orb_true_r.
Qed.

Lemma existsb_same (f g : string -> bool) (l : list string) :
  (forall s, f s = g s) -> existsb f l = existsb g l.
Proof.
  intros H. induction l as [|x l IH]; simpl; [reflexivity|].
  rewrite H, IH. reflexivity.
Qed.

(** ** The search route on a query *)

(** C2, where the code departs from it: the query is handed to the pattern
    engine as it is.  For any engine that treats the two patterns the way
    the fragment does, the query made of a dot returns the record titled
    "bank", although neither its title nor its tag contains a dot, and the
    query made of an opening parenthesis is answered with the failure of
    the search (status 500) instead of an empty result. *)
Theorem search_takes_query_as_pattern (E : string -> option (string -> bool)) :
  Pattern.agrees E "." -> Pattern.agrees E "(" ->
  get_search E Ref.st1 1 (Some ".") = json_items [Ref.bank] /\
  ~ contains_ci "." (title Ref.bank) /\
  (forall t, In t (tags Ref.bank) -> ~ contains_ci "." t) /\
  get_search E Ref.st1 1 (Some "(") = json_message 500 false "Search failed".
Proof.
  intros Hdot Hpar.
  assert (Cdot : Pattern.compile "."
                 = Pattern.Compiled (Pattern.Cat Pattern.Dot Pattern.Eps))
    by reflexivity.
  assert (Cpar : Pattern.compile "(" = Pattern.SyntaxError) by reflexivity.
  unfold Pattern.agrees in Hdot, Hpar. rewrite Cdot in Hdot. rewrite Cpar in Hpar.
  destruct Hdot as (re & He & Hre).
  split; [|split; [|split]].
  - unfold get_search. simpl falsy. simpl trim. simpl field_value.
    simpl orb. cbv iota. rewrite He.
    unfold Ref.st1, search_filter. simpl. rewrite !Hre. reflexivity.
  - intros H. apply includes_ci_iff in H. discriminate.
  - intros t [<-|[]] H. apply includes_ci_iff in H. discriminate.
  - unfold get_search. simpl falsy. simpl trim. simpl field_value.
    simpl orb. cbv iota. rewrite Hpar. reflexivity.
Qed.

Lemma search_takes_query_as_pattern_witness :
  get_search Pattern.RegExp_i Ref.st1 1 (Some ".") = json_items [Ref.bank] /\
  get_search Pattern.RegExp_i Ref.st1 1 (Some "(")
  = json_message 500 false "Search failed".
Proof.
  destruct (search_takes_query_as_pattern Pattern.RegExp_i
              (fragment_agrees ".") (fragment_agrees "("))
    as (H1 & _ & _ & H4).
  split; [exact H1|exact H4].
Defined.

(** For a pattern engine that treats the query the way the fragment does
    (it compiles a query without special characters and tests a subject
    for the query as a literal, case ignored): on a query that is not
    blank, in which no character has a meaning of its own in a pattern and
    that holds no NUL character, the search returns exactly the records of
    the listing of the owner whose title, or one of whose tags, contains
    the query as a substring, case ignored (A to Z and the Latin-1
    capitals fold to their small letters), in the order of the listing;
    the encrypted payload and the iv play no part. *)
Theorem search_literal_query (E : string -> option (string -> bool))
    (st : Store) (u : ObjectId) (q : string) :
  ~ blank (Some q) -> literal q = true -> Pattern.agrees E q ->
  get_search E st u (Some q)
  = json_items
      (filter (fun d => includes_ci q (title d) || existsb (includes_ci q) (tags d))
         (find_by_user st u)) /\
  newest_first (records (get_search E st u (Some q))) /\
  forall d,
    In d (records (get_search E st u (Some q))) <->
    In d (docs st) /\ userId d = u /\
    (contains_ci q (title d) \/ exists t, In t (tags d) /\ contains_ci q t).
Proof.
  intros NB L A.
  assert (T : falsy (Some q) || String.eqb (trim (field_value (Some q))) "" = false).
  { destruct (falsy (Some q) || String.eqb (trim (field_value (Some q))) "") eqn:B;
      [|reflexivity].
    exfalso. apply NB, blank_iff, B. }
  unfold Pattern.agrees in A. rewrite (compile_literal q L) in A.
  destruct A as (re & He & Hre).
  assert (R : forall s, re s = includes_ci q s).
  { intros s. rewrite Hre. apply test_literal. }
  assert (G : get_search E st u (Some q)
              = json_items
                  (filter (fun d => includes_ci q (title d)
                                    || existsb (includes_ci q) (tags d))
                     (find_by_user st u))).
  { unfold get_search. rewrite T. simpl field_value. rewrite He.
    f_equal. unfold find_by_user. rewrite <- sort_desc_filter, <- filter_filter.
    f_equal. apply filter_ext. intros d. unfold search_filter.
    rewrite R, (existsb_same re (includes_ci q) _ R). reflexivity. }
  split; [exact G|]. rewrite G. unfold records. simpl. rewrite app_nil_r. split.
  - apply filter_newest_first, sort_desc_sorted.
  - intros d. rewrite filter_In, find_by_user_In, orb_true_iff, includes_ci_iff,
      existsb_exists.
    split.
    + intros [[H1 H2] [H3|(t & Ht & H3)]]; repeat split; auto.
      right. exists t. split; [exact Ht|apply includes_ci_iff, H3].
    + intros (H1 & H2 & [H3|(t & Ht & H3)]); repeat split; auto.
      right. exists t. split; [exact Ht|apply includes_ci_iff, H3].
Qed.

Lemma search_literal_query_witness :
  get_search Pattern.RegExp_i Ref.st2 1 (Some "BANK") = json_items [Ref.bank] /\
  get_search Pattern.RegExp_i Ref.st2 1 (Some "groceries") = json_items [] /\
  get_search Pattern.RegExp_i Ref.st3 1 (Some (String "233" ""))
  = json_items [Ref.cafe].
Proof.
  assert (N1 : ~ blank (Some "BANK")).
  { intros H. simpl in H. apply Forall_inv in H. discriminate H. }
  assert (N2 : ~ blank (Some "groceries")).
  { intros H. simpl in H. apply Forall_inv in H. discriminate H. }
  assert (N3 : ~ blank (Some (String "233" ""))).
  { intros H. simpl in H. apply Forall_inv in H. discriminate H. }
  destruct (search_literal_query Pattern.RegExp_i Ref.st2 1 "BANK" N1 eq_refl
              (fragment_agrees "BANK")) as [H1 _].
  destruct (search_literal_query Pattern.RegExp_i Ref.st2 1 "groceries" N2 eq_refl
              (fragment_agrees "groceries")) as [H2 _].
  destruct (search_literal_query Pattern.RegExp_i Ref.st3 1 (String "233" "") N3
              eq_refl (fragment_agrees (String "233" ""))) as [H3 _].
  rewrite H1, H2, H3. vm_compute. repeat split; reflexivity.
Defined.

(** ** The listing *)

(** The list route answers with all the records of the caller and no
    others, each one once, newest first. *)
Theorem list_returns_owner_records_newest_first (st : Store) (u : ObjectId) :
  exists l,
    get_items st u = json_items l /\
    newest_first l /\
    Permutation l (filter (fun d => (userId d =? u)%nat) (docs st)) /\
    forall d, In d l <-> In d (docs st) /\ userId d = u.
Proof.
  exists (find_by_user st u). split; [reflexivity|]. split; [|split].
  - apply sort_desc_sorted.
  - apply Permutation_sym, sort_desc_perm.
  - intros d. apply find_by_user_In.
Qed.

(** ** What a request changes *)

(** A request answered with [success] false leaves the collection and the
    object id generator exactly as they were. *)
Theorem failed_request_changes_nothing (E : string -> option (string -> bool))
    (compare : string -> string -> bool) (users : ObjectId -> option User)
    (st : Store) (r : Request) :
  success (snd (handle E compare users st r)) = false ->
  fst (handle E compare users st r) = st.
Proof.
  destruct r as [u|now u b|now u i b|u i|u q|u k]; simpl; try reflexivity.
  - rewrite post_items_eq. destruct (missing_required b); simpl;
      [reflexivity|discriminate].
  - rewrite put_items_eq. destruct (missing_required b); simpl; [reflexivity|].
    destruct (findOne st i u) as [old|]; simpl; [|reflexivity].
    destruct (changes old b); simpl; [discriminate|reflexivity].
  - rewrite delete_items_eq. destruct (findOne st i u); simpl;
      [discriminate|reflexivity].
Qed.

Lemma failed_request_changes_nothing_witness :
  fst (handle Pattern.RegExp_i Ref.compare Ref.users Ref.st2 (DeleteItems 2 0))
  = Ref.st2.
Proof.
  apply (failed_request_changes_nothing Pattern.RegExp_i Ref.compare Ref.users
           Ref.st2 (DeleteItems 2 0) eq_refl).
Defined.

(** A request changes no record but the one it updates or deletes: for
    every object id issued so far that the request is not an update or a
    delete of, the document under that id, or its absence, is the same
    after the request. *)
Theorem request_leaves_other_records (E : string -> option (string -> bool))
    (compare : string -> string -> bool) (users : ObjectId -> option User)
    (st : Store) (r : Request) (j : ObjectId) :
  wf st -> targets j r = false -> (j < nextId st)%nat ->
  lookup (fst (handle E compare users st r)) j = lookup st j.
Proof.
  intros W T B. destruct (lookup st j) as [d|] eqn:L.
  - apply handle_frame; assumption.
  - apply handle_gone; assumption.
Qed.

Lemma request_leaves_other_records_witness :
  lookup (fst (handle Pattern.RegExp_i Ref.compare Ref.users Ref.st2
                 (PutItems 3000 1 0 (Ref.body "Bank" "c0de" "0f" None)))) 1
  = lookup Ref.st2 1.
Proof.
  apply (request_leaves_other_records Pattern.RegExp_i Ref.compare Ref.users
           Ref.st2 (PutItems 3000 1 0 (Ref.body "Bank" "c0de" "0f" None)) 1
           st2_wf eq_refl).
  simpl. lia.
Defined.

Lemma filter_swap (p q : VaultItem -> bool) (l : list VaultItem) :
  filter p (filter q l) = filter q (filter p l).
Proof.
  induction l as [|x l IH]; simpl; [reflexivity|].
  destruct (p x) eqn:P, (q x) eqn:Q; simpl; rewrite ?P, ?Q, IH; reflexivity.
Qed.

Lemma filter_all (p : VaultItem -> bool) (l : list VaultItem) :
  (forall x, In x l -> p x = true) -> filter p l = l.
Proof.
  induction l as [|x l IH]; simpl; intros H; [reflexivity|].
  rewrite (H x) by auto. rewrite IH by auto. reflexivity.
Qed.

(** Whatever the query and the engine, a search that does not fail answers
    with the listing of the caller from which some records are left out:
    it adds no record and keeps the order of the listing.  It fails only
    on a query that is not blank and that the engine does not compile. *)
Theorem search_result_is_part_of_list (E : string -> option (string -> bool))
    (st : Store) (u : ObjectId) (q : option string) :
  (get_search E st u q = json_message 500 false "Search failed" /\
   ~ blank q /\ E (field_value q) = None) \/
  exists keep,
    get_search E st u q = json_items (filter keep (find_by_user st u)).
Proof.
  unfold get_search.
  destruct (falsy q || String.eqb (trim (field_value q)) "") eqn:B.
  - right. exists (fun _ => true). rewrite filter_all; auto.
  - destruct (E (field_value q)) as [re|] eqn:C.
    + right. exists (fun d => re (title d) || existsb re (tags d)).
      unfold find_by_user, search_filter.
      rewrite <- sort_desc_filter, <- filter_filter. reflexivity.
    + left. split; [reflexivity|]. split; [|reflexivity].
      intros H. apply blank_iff in H. congruence.
Qed.

(** A request of one caller changes nothing of what the list route and
    the search route answer to any other caller. *)
Theorem other_callers_see_no_change (E : string -> option (string -> bool))
    (compare : string -> string -> bool) (users : ObjectId -> option User)
    (st : Store) (r : Request) (v : ObjectId) :
  wf st -> caller r <> v ->
  get_items (fst (handle E compare users st r)) v = get_items st v /\
  forall q,
    get_search E (fst (handle E compare users st r)) v q = get_search E st v q.
Proof.
  intros W N.
  pose proof (handle_foreign E compare users st r W) as F. unfold foreign in F.
  assert (O : forall l,
             filter (fun d => (userId d =? v)%nat) l
             = filter (fun d => (userId d =? v)%nat)
                 (filter (fun d => negb (userId d =? caller r)%nat) l)).
  { intros l. induction l as [|x l IH]; simpl; [reflexivity|].
    destruct (userId x =? caller r)%nat eqn:Ec; simpl.
    - apply Nat.eqb_eq in Ec.
      assert (Ev : (userId x =? v)%nat = false)
        by (apply Nat.eqb_neq; congruence).
      rewrite Ev. exact IH.
    - destruct (userId x =? v)%nat; rewrite IH; reflexivity. }
  assert (D : filter (fun d => (userId d =? v)%nat)
                (docs (fst (handle E compare users st r)))
              = filter (fun d => (userId d =? v)%nat) (docs st)).
  { rewrite O, F, <- O. reflexivity. }
  split.
  - unfold get_items, find_by_user. rewrite D. reflexivity.
  - intros q. unfold get_search, find_by_user.
    destruct (falsy q || String.eqb (trim (field_value q)) "");
      [rewrite D; reflexivity|].
    destruct (E (field_value q)) as [re|]; [|reflexivity].
    unfold search_filter. rewrite !filter_filter, D. reflexivity.
Qed.

Lemma other_callers_see_no_change_witness :
  get_items
    (fst (handle Pattern.RegExp_i Ref.compare Ref.users Ref.st2 (DeleteItems 1 0)))
    2
  = get_items Ref.st2 2.
Proof.
  assert (N : caller (DeleteItems 1 0) <> 2%nat) by discriminate.
  apply (other_callers_see_no_change Pattern.RegExp_i Ref.compare Ref.users
           Ref.st2 (DeleteItems 1 0) 2 st2_wf N).
Defined.

(** ** How the operations compose *)

Lemma remove_first_filter (i u : ObjectId) (l : list VaultItem) (d : VaultItem) :
  NoDup (map _id l) ->
  find (fun x => (_id x =? i)%nat && (userId x =? u)%nat) l = Some d ->
  remove_first (fun x => (_id x =? i)%nat && (userId x =? u)%nat) l
  = filter (fun x => negb (_id x =? i)%nat) l.
Proof.
  induction l as [|y l IH]; simpl; intros N F; [discriminate|].
  inversion N as [|? ? Hy N']; subst.
  destruct (_id y =? i)%nat eqn:E; simpl.
  - apply Nat.eqb_eq in E.
    assert (A : forall x, In x l -> negb (_id x =? i)%nat = true).
    { intros x Hx. apply negb_true_iff, Nat.eqb_neq. intros Ex.
      apply Hy. rewrite E, <- Ex. apply in_map, Hx. }
    destruct (userId y =? u)%nat.
    + symmetry. apply filter_all, A.
    + apply find_some in F as [Hd Hf]. apply andb_true_iff in Hf as [Hf _].
      specialize (A d Hd). rewrite Hf in A. discriminate.
  - rewrite (IH N' F). reflexivity.
Qed.

Lemma length_remove_first (f : VaultItem -> bool) (l : list VaultItem)
    (d : VaultItem) :
  find f l = Some d -> List.length l = S (List.length (remove_first f l)).
Proof.
  induction l as [|y l IH]; simpl; intros F; [discriminate|].
  destruct (f y); [reflexivity|]. simpl. rewrite (IH F). reflexivity.
Qed.

(** A delete that succeeds removes the record with that object id and
    nothing else: the collection loses exactly one document, and the
    listing of every caller is its former listing without that record, in
    the same order. *)
Theorem delete_removes_exactly_that_record (st : Store) (u i : ObjectId) :
  wf st -> status (snd (delete_items st u i)) = 200%nat ->
  docs (fst (delete_items st u i))
  = filter (fun d => negb (_id d =? i)%nat) (docs st) /\
  List.length (docs st) = S (List.length (docs (fst (delete_items st u i)))) /\
  forall v,
    get_items (fst (delete_items st u i)) v
    = json_items (filter (fun d => negb (_id d =? i)%nat) (find_by_user st v)).
Proof.
  intros W S. rewrite delete_items_eq in *.
  destruct (findOne st i u) as [d|] eqn:F; [|discriminate]. simpl.
  unfold findOne in F.
  pose proof (remove_first_filter i u (docs st) d (proj1 W) F) as R.
  split; [exact R|]. split.
  - apply (length_remove_first _ _ d F).
  - intros v. unfold get_items, find_by_user. simpl. rewrite R.
    rewrite filter_swap, sort_desc_filter. reflexivity.
Qed.

Lemma delete_removes_exactly_that_record_witness :
  docs (fst (delete_items Ref.st2 1 0)) = [Ref.mail] /\
  get_items (fst (delete_items Ref.st2 1 0)) 1 = json_items [].
Proof.
  destruct (delete_removes_exactly_that_record Ref.st2 1 0 st2_wf eq_refl)
    as (H1 & _ & H3).
  split; [exact H1|]. exact (H3 1%nat).
Defined.

Lemma find_app_last (f : VaultItem -> bool) (l : list VaultItem) (d : VaultItem) :
  (forall x, In x l -> f x = false) -> f d = true ->
  find f (l ++ [d])%list = Some d /\ remove_first f (l ++ [d])%list = l.
Proof.
  induction l as [|y l IH]; simpl; intros H Hd.
  - rewrite Hd. auto.
  - rewrite (H y) by auto. destruct IH as [I1 I2]; auto.
    rewrite I1, I2. auto.
Qed.

(** A record that is created and then deleted by its owner leaves the
    collection as it was before the create; only the object id it was
    given stays used. *)
Theorem create_then_delete_restores (st : Store) (now : Z) (u : ObjectId)
    (b : ReqBody) :
  wf st -> missing_required b = false ->
  delete_items (fst (post_items st now u b)) u (nextId st)
  = (mkStore (docs st) (S (nextId st)),
     json_message 200 true "Item deleted successfully").
Proof.
  intros W M. rewrite post_items_eq, M. simpl.
  rewrite delete_items_eq. unfold findOne. simpl.
  destruct (find_app_last
              (fun d => (_id d =? nextId st)%nat && (userId d =? u)%nat)
              (docs st) (created_item st now u b)) as [F R].
  - intros x Hx. pose proof (wf_below st x W Hx) as B.
    apply andb_false_iff. left. apply Nat.eqb_neq. lia.
  - simpl. rewrite !Nat.eqb_refl. reflexivity.
  - rewrite F, R. reflexivity.
Qed.

Lemma create_then_delete_restores_witness :
  docs (fst (delete_items
               (fst (post_items Ref.st2 3000 1 (Ref.body "wifi" "c0de" "0f" None)))
               1 (nextId Ref.st2)))
  = docs Ref.st2.
Proof.
  rewrite (create_then_delete_restores Ref.st2 3000 1
             (Ref.body "wifi" "c0de" "0f" None) st2_wf eq_refl).
  reflexivity.
Defined.

Lemma same_fields_no_change (d : VaultItem) (b : ReqBody) :
  title d = field_value (b_title b) ->
  encryptedData d = field_value (b_encryptedData b) ->
  iv d = field_value (b_iv b) ->
  tags d = or_empty (b_tags b) ->
  changes d b = false.
Proof.
  intros H1 H2 H3 H4. unfold changes, isModified, string_list_eqb.
  rewrite <- H1, <- H2, <- H3, <- H4, !String.eqb_refl.
  destruct (list_eq_dec string_dec (tags d) (tags d)); [reflexivity|congruence].
Qed.

(** An update that succeeded, sent again with the same body, changes
    nothing, whenever it is served: the store stays as the first update
    left it and the answer is the answer to the first one, [updatedAt]
    included. *)
Theorem repeated_update_changes_nothing (st : Store) (now now' : Z)
    (u i : ObjectId) (b : ReqBody) :
  wf st -> status (snd (put_items st now u i b)) = 200%nat ->
  put_items (fst (put_items st now u i b)) now' u i b
  = (fst (put_items st now u i b), snd (put_items st now u i b)).
Proof.
  intros W S.
  assert (M : missing_required b = false).
  { rewrite put_items_eq in S. destruct (missing_required b);
      [discriminate|reflexivity]. }
  destruct (findOne st i u) as [old|] eqn:F.
  2:{ rewrite put_items_eq, M, F in S. discriminate. }
  destruct (put_items_found st now u i b old W M F)
    as (d & E & L & _ & H1 & H2 & H3 & H4 & _ & H6 & _).
  pose proof (handle_wf (fun _ => None) (fun _ _ => false) (fun _ => None)
                st (PutItems now u i b) W) as W1. simpl in W1.
  apply findOne_spec in F as (_ & _ & Hu).
  assert (F1 : findOne (fst (put_items st now u i b)) i u = Some d).
  { rewrite (wf_findOne _ _ _ W1), L, H6, Hu, Nat.eqb_refl. reflexivity. }
  rewrite (put_items_eq (fst (put_items st now u i b))), M, F1.
  rewrite (same_fields_no_change d b H1 H2 H3 H4).
  rewrite E at 3. reflexivity.
Qed.

Lemma repeated_update_changes_nothing_witness :
  put_items (fst (put_items Ref.st2 3000 1 0 (Ref.body "Bank" "c0de" "0f" None)))
    9000 1 0 (Ref.body "Bank" "c0de" "0f" None)
  = (fst (put_items Ref.st2 3000 1 0 (Ref.body "Bank" "c0de" "0f" None)),
     snd (put_items Ref.st2 3000 1 0 (Ref.body "Bank" "c0de" "0f" None))).
Proof.
  apply (repeated_update_changes_nothing Ref.st2 3000 9000 1 0
           (Ref.body "Bank" "c0de" "0f" None) st2_wf eq_refl).
Defined.

(** ** The image url validator of the Post model *)

Lemma lower_app (a b : string) : lower (a ++ b) = lower a ++ lower b.
Proof. induction a as [|c a IH]; simpl; [reflexivity|]. rewrite IH. reflexivity. Qed.

Lemma string_app_assoc (a b c : string) : (a ++ b) ++ c = a ++ b ++ c.
Proof. induction a as [|x a IH]; simpl; [reflexivity|]. rewrite IH. reflexivity. Qed.

Lemma skip_ci_iff (p s r : string) :
  Posts.skip_ci p s = Some r <-> exists h, s = h ++ r /\ lower h = lower p.
Proof.
  revert s. induction p as [|a p IH]; intros s; simpl.
  - split.
    + intros H. inversion H; subst. exists "". auto.
    + intros (h & -> & Hh). destruct h; [reflexivity|discriminate].
  - destruct s as [|c s].
    + split; [discriminate|]. intros (h & Hs & Hh).
      destruct h; simpl in *; discriminate.
    + destruct (Ascii.eqb (fold_case a) (fold_case c)) eqn:E.
      * apply Ascii.eqb_eq in E. rewrite IH. split.
        -- intros (h & -> & Hh). exists (String c h). simpl.
           rewrite Hh, E. auto.
        -- intros (h & Hs & Hh). destruct h as [|x h]; simpl in *; [discriminate|].
           injection Hs as -> ->. injection Hh as _ Hh. exists h. auto.
      * apply Ascii.eqb_neq in E. split; [discriminate|].
        intros (h & Hs & Hh). destruct h as [|x h]; simpl in *; [discriminate|].
        injection Hs as -> ->. injection Hh as Hx _. congruence.
Qed.

Lemma skip_ci_app (p1 p2 s t : string) :
  Posts.skip_ci (p1 ++ p2) s = Some t ->
  exists r, Posts.skip_ci p1 s = Some r /\ Posts.skip_ci p2 r = Some t.
Proof.
  revert s. induction p1 as [|a p1 IH]; intros s; simpl.
  - intros H. exists s. auto.
  - destruct s as [|c s]; [discriminate|].
    destruct (Ascii.eqb (fold_case a) (fold_case c)); [apply IH|discriminate].
Qed.

Lemma whole_ci_iff (p s : string) :
  Posts.whole_ci p s = true <-> lower s = lower p.
Proof.
  unfold Posts.whole_ci. split.
  - destruct (Posts.skip_ci p s) as [r|] eqn:E; [|discriminate].
    destruct r; [|discriminate]. intros _.
    apply skip_ci_iff in E as (h & -> & Hh).
    rewrite lower_app, Hh. simpl. clear. induction (lower p); simpl; congruence.
  - intros H. assert (E : Posts.skip_ci p s = Some "").
    { apply skip_ci_iff. exists s. split; [|exact H].
      clear. induction s; simpl; congruence. }
    rewrite E. reflexivity.
Qed.

Lemma extension_iff (s : string) :
  existsb (fun ext => Posts.whole_ci ext s) Posts.image_extensions = true
  <-> In (lower s) Posts.image_extensions.
Proof.
  rewrite existsb_exists. split.
  - intros (ext & Hin & H). apply whole_ci_iff in H. rewrite H.
    simpl in Hin.
    repeat (destruct Hin as [<-|Hin]; [simpl; tauto|]). contradiction.
  - intros H. exists (lower s). split; [exact H|]. apply whole_ci_iff.
    simpl in H.
    repeat (destruct H as [<-|H]; [reflexivity|]). contradiction.
Qed.

Lemma image_tail_iff (s : string) :
  Posts.image_tail s = true <->
  exists mid ext,
    s = mid ++ "." ++ ext /\
    Forall (fun c => Posts.isLineTerminator c = false) (list_ascii_of_string mid) /\
    In (lower ext) Posts.image_extensions.
Proof.
  induction s as [|c s IH]; cbn [Posts.image_tail].
  - split; [discriminate|]. intros (mid & ext & H & _).
    destruct mid; discriminate.
  - rewrite orb_true_iff, !andb_true_iff, extension_iff, IH, negb_true_iff,
      Ascii.eqb_eq.
    split.
    + intros [[-> H]|[Hc (mid & ext & -> & Hm & He)]].
      * exists "", s. simpl. auto.
      * exists (String c mid), ext. simpl. auto.
    + intros (mid & ext & H & Hm & He). destruct mid as [|x mid]; simpl in H.
      * injection H as -> ->. left. auto.
      * injection H as -> ->. simpl in Hm. inversion Hm; subst.
        right. split; [assumption|]. exists mid, ext. auto.
Qed.

(** The validator of [imageUrl] accepts a non-empty value exactly when it
    is an http or https url, in any case, that ends with a dot and one of
    png, jpg, jpeg, gif and webp, in any case, with no line terminator
    after the scheme; it accepts the absent and the empty value. *)
Theorem image_validator_accepts_image_urls (v : option string) :
  Posts.imageUrl_validator v = true <->
  v = None \/ v = Some "" \/ exists s, v = Some s /\ Posts.image_url_shape s.
Proof.
  unfold Posts.imageUrl_validator. destruct v as [s|]; simpl.
  2:{ split; auto. }
  destruct (String.eqb s "") eqn:E.
  - apply String.eqb_eq in E. subst s. split; auto.
  - apply String.eqb_neq in E.
    assert (G : Posts.image_pattern s = true <-> Posts.image_url_shape s).
    { unfold Posts.image_pattern, Posts.image_url_shape. split.
      - destruct (Posts.skip_ci "http" s) as [r|] eqn:H1; [|discriminate].
        apply skip_ci_iff in H1 as (h1 & -> & Hh1).
        intros H. apply orb_true_iff in H as [H|H].
        + destruct (Posts.skip_ci "s" r) as [r'|] eqn:H2; [|discriminate].
          apply skip_ci_iff in H2 as (h2 & -> & Hh2).
          destruct (Posts.skip_ci "://" r') as [t|] eqn:H3; [|discriminate].
          apply skip_ci_iff in H3 as (h3 & -> & Hh3).
          apply image_tail_iff in H as (mid & ext & -> & Hm & He).
          exists (h1 ++ h2 ++ h3), mid, ext.
          rewrite !lower_app, Hh1, Hh2, Hh3.
          rewrite !string_app_assoc. auto.
        + destruct (Posts.skip_ci "://" r) as [t|] eqn:H3; [|discriminate].
          apply skip_ci_iff in H3 as (h3 & -> & Hh3).
          apply image_tail_iff in H as (mid & ext & -> & Hm & He).
          exists (h1 ++ h3), mid, ext.
          rewrite !lower_app, Hh1, Hh3.
          rewrite !string_app_assoc. auto.
      - intros (scheme & mid & ext & -> & Hs & Hm & He).
        assert (T : Posts.image_tail (mid ++ "." ++ ext) = true)
          by (apply image_tail_iff; exists mid, ext; auto).
        destruct Hs as [Hs|Hs].
        + assert (K : Posts.skip_ci ("http" ++ "://") (scheme ++ mid ++ "." ++ ext)
                      = Some (mid ++ "." ++ ext))
            by (apply skip_ci_iff; exists scheme; auto).
          apply skip_ci_app in K as (r & K1 & K2).
          rewrite K1, K2, T. apply orb_true_r.
        + assert (K : Posts.skip_ci ("http" ++ "s" ++ "://")
                        (scheme ++ mid ++ "." ++ ext)
                      = Some (mid ++ "." ++ ext))
            by (apply skip_ci_iff; exists scheme; auto).
          apply skip_ci_app in K as (r & K1 & K2).
          apply skip_ci_app in K2 as (r' & K2 & K3).
          rewrite K1, K2, K3, T. reflexivity. }
    rewrite G. split.
    + intros H. right. right. exists s. auto.
    + intros [H|[H|(s' & H & Hs)]]; try discriminate; congruence.
Qed.

(** ** The post controller *)

Lemma findById_replace (st : list Posts.Post) (p p' : Posts.Post) (i j : ObjectId) :
  Posts.findById st i = Some p -> Posts._id p' = i ->
  Posts.findById (Posts.replace_post p' st) j
  = if (j =? i)%nat then Some p' else Posts.findById st j.
Proof.
  unfold Posts.findById. intros F <-.
  induction st as [|y st IH]; simpl in *; [discriminate|].
  destruct (Posts._id y =? Posts._id p')%nat eqn:E; simpl.
  - apply Nat.eqb_eq in E. rewrite E.
    rewrite (Nat.eqb_sym j). destruct (Posts._id p' =? j)%nat; reflexivity.
  - rewrite (IH F). apply Nat.eqb_neq in E.
    destruct (Posts._id y =? j)%nat eqn:Ej; [|reflexivity].
    apply Nat.eqb_eq in Ej. subst j.
    apply Nat.eqb_neq in E. rewrite E. reflexivity.
Qed.

Lemma findById_id (st : list Posts.Post) (i : ObjectId) (p : Posts.Post) :
  Posts.findById st i = Some p -> Posts._id p = i /\ In p st.
Proof.
  unfold Posts.findById. intros F. apply find_some in F as [H1 H2].
  apply Nat.eqb_eq in H2. auto.
Qed.

(** The post [likePost] writes for the caller [u]. *)
Lemma likePost_found (st : list Posts.Post) (now : Z) (u i : ObjectId)
    (p : Posts.Post) :
  Posts.findById st i = Some p -> Posts.validateSync p = true ->
  let liked := existsb (fun id => (id =? u)%nat) (Posts.likes p) in
  let p' :=
    Posts.mkPost (Posts._id p) (Posts.content p) (Posts.imageUrl p)
      (Posts.imagePublicId p) (Posts.author p)
      (if liked then Posts.likes_of_others u p else (Posts.likes p ++ [u])%list)
      (Posts.comments p) (Posts.isPublic p) (Posts.createdAt p) now in
  Posts.likePost st now (Some u) i
  = (Posts.replace_post p' st,
     Posts.mkResponse 200 true None
       (Some (if liked then "Post unliked" else "Post liked")) (Some p') None).
Proof.
  intros F V liked p'. unfold Posts.likePost. rewrite F. fold liked.
  unfold Posts.save, Posts.with_likes, Posts.likes_of_others in *.
  destruct liked; simpl;
    change (Posts.validateSync _) with (Posts.validateSync p);
    rewrite V; reflexivity.
Qed.

Lemma existsb_eq_In (u : ObjectId) (l : list ObjectId) :
  existsb (fun id => (id =? u)%nat) l = true <-> In u l.
Proof.
  rewrite existsb_exists. split.
  - intros (x & Hx & E). apply Nat.eqb_eq in E. subst x. exact Hx.
  - intros H. exists u. split; [exact H|apply Nat.eqb_refl].
Qed.

(** [likePost] by an authenticated caller on a valid post toggles the
    like of that caller and nothing else: afterwards the caller is among
    the likes exactly when they were not before, the likes of everybody
    else are the same in the same order, the other fields of the post are
    as they were except [updatedAt], which is the time of the request,
    the answer carries the stored post, and no other post is changed. *)
Theorem like_toggles_the_callers_like (st : list Posts.Post) (now : Z)
    (u i : ObjectId) (p : Posts.Post) :
  Posts.findById st i = Some p -> Posts.validateSync p = true ->
  exists p',
    Posts.status (snd (Posts.likePost st now (Some u) i)) = 200%nat /\
    Posts.post (snd (Posts.likePost st now (Some u) i)) = Some p' /\
    Posts.findById (fst (Posts.likePost st now (Some u) i)) i = Some p' /\
    (In u (Posts.likes p') <-> ~ In u (Posts.likes p)) /\
    Posts.likes_of_others u p' = Posts.likes_of_others u p /\
    Posts.with_likes p' (Posts.likes p)
    = Posts.mkPost (Posts._id p) (Posts.content p) (Posts.imageUrl p)
        (Posts.imagePublicId p) (Posts.author p) (Posts.likes p)
        (Posts.comments p) (Posts.isPublic p) (Posts.createdAt p) now /\
    Posts.message (snd (Posts.likePost st now (Some u) i))
    = Some (if existsb (fun id => (id =? u)%nat) (Posts.likes p)
            then "Post unliked" else "Post liked") /\
    forall j, j <> i ->
      Posts.findById (fst (Posts.likePost st now (Some u) i)) j
      = Posts.findById st j.
Proof.
  intros F V. rewrite (likePost_found st now u i p F V). cbv zeta.
  cbn [fst snd Posts.status Posts.post Posts.message].
  destruct (findById_id st i p F) as [Hi _].
  eexists. split; [reflexivity|]. split; [reflexivity|].
  split; [|split; [|split; [|split; [|split]]]].
  - erewrite findById_replace; [|exact F|exact Hi].
    rewrite Nat.eqb_refl. reflexivity.
  - cbn [Posts.likes].
    destruct (existsb (fun id => (id =? u)%nat) (Posts.likes p)) eqn:L.
    + apply existsb_eq_In in L. unfold Posts.likes_of_others.
      rewrite filter_In, negb_true_iff, Nat.eqb_refl. split; [|tauto].
      intros [_ H]. discriminate.
    + assert (N : ~ In u (Posts.likes p)).
      { intros H. apply existsb_eq_In in H. congruence. }
      split; [auto|]. intros _. apply in_or_app. right. left. reflexivity.
  - unfold Posts.likes_of_others at 1. cbn [Posts.likes].
    destruct (existsb (fun id => (id =? u)%nat) (Posts.likes p)).
    + unfold Posts.likes_of_others.
      induction (Posts.likes p) as [|x l IH]; simpl; [reflexivity|].
      destruct (x =? u)%nat eqn:E; simpl; rewrite ?E; simpl; rewrite IH;
        reflexivity.
    + unfold Posts.likes_of_others. rewrite filter_app. simpl.
      rewrite Nat.eqb_refl. simpl. apply app_nil_r.
  - reflexivity.
  - reflexivity.
  - intros j Hj. erewrite findById_replace; [|exact F|exact Hi].
    apply Nat.eqb_neq in Hj. rewrite Hj. reflexivity.
Qed.

Lemma like_toggles_the_callers_like_witness :
  exists p',
    Posts.post (snd (Posts.likePost Posts.feed 5000 (Some 3%nat) 0)) = Some p' /\
    Posts.likes Posts.hello = [2; 3]%nat /\ Posts.likes_of_others 3 p' = [2]%nat /\
    ~ In 3%nat (Posts.likes p').
Proof.
  destruct (like_toggles_the_callers_like Posts.feed 5000 3 0 Posts.hello
              eq_refl eq_refl) as (p' & _ & H2 & _ & H4 & H5 & _).
  exists p'. split; [exact H2|]. split; [reflexivity|]. split; [exact H5|].
  intros H. apply H4 in H. apply H. simpl. auto.
Defined.

Lemma filter_others_absent (u : ObjectId) (l : list ObjectId) :
  ~ In u l -> filter (fun id => negb (id =? u)%nat) l = l.
Proof.
  induction l as [|x l IH]; simpl; intros N; [reflexivity|].
  destruct (x =? u)%nat eqn:E.
  - apply Nat.eqb_eq in E. exfalso. apply N. auto.
  - simpl. rewrite IH by tauto. reflexivity.
Qed.

(** A like followed by a second [likePost] of the same caller gives the
    post its former likes back: the first request answers that the post is
    liked, the second that it is unliked, and the stored likes are the
    ones the post had before the two requests. *)
Theorem like_then_unlike_restores (st : list Posts.Post) (now1 now2 : Z)
    (u i : ObjectId) (p : Posts.Post) :
  Posts.findById st i = Some p -> Posts.validateSync p = true ->
  ~ In u (Posts.likes p) ->
  exists p2,
    Posts.findById
      (fst (Posts.likePost (fst (Posts.likePost st now1 (Some u) i)) now2 (Some u) i))
      i = Some p2 /\
    Posts.likes p2 = Posts.likes p /\
    Posts.message (snd (Posts.likePost st now1 (Some u) i)) = Some "Post liked" /\
    Posts.message
      (snd (Posts.likePost (fst (Posts.likePost st now1 (Some u) i)) now2 (Some u) i))
    = Some "Post unliked".
Proof.
  intros F V N.
  assert (L : existsb (fun id => (id =? u)%nat) (Posts.likes p) = false).
  { destruct (existsb (fun id => (id =? u)%nat) (Posts.likes p)) eqn:E;
      [|reflexivity].
    apply existsb_eq_In in E. contradiction. }
  destruct (findById_id st i p F) as [Hi _].
  rewrite (likePost_found st now1 u i p F V). cbv zeta. rewrite L.
  cbn [fst snd Posts.message].
  set (p1 := Posts.mkPost (Posts._id p) (Posts.content p) (Posts.imageUrl p)
               (Posts.imagePublicId p) (Posts.author p)
               (Posts.likes p ++ [u])%list (Posts.comments p) (Posts.isPublic p)
               (Posts.createdAt p) now1).
  assert (F1 : Posts.findById (Posts.replace_post p1 st) i = Some p1).
  { erewrite findById_replace; [|exact F|exact Hi].
    rewrite Nat.eqb_refl. reflexivity. }
  assert (V1 : Posts.validateSync p1 = true) by exact V.
  assert (L1 : existsb (fun id => (id =? u)%nat) (Posts.likes p1) = true).
  { apply existsb_eq_In. simpl. apply in_or_app. right. left. reflexivity. }
  rewrite (likePost_found (Posts.replace_post p1 st) now2 u i p1 F1 V1).
  cbv zeta. rewrite L1. cbn [fst snd Posts.message].
  eexists. split.
  - erewrite findById_replace; [|exact F1|exact Hi].
    rewrite Nat.eqb_refl. reflexivity.
  - split; [|split; reflexivity].
    cbn [Posts.likes]. unfold Posts.likes_of_others, p1. cbn [Posts.likes].
    rewrite filter_app. simpl. rewrite Nat.eqb_refl. simpl.
    rewrite app_nil_r. apply filter_others_absent, N.
Qed.

Lemma like_then_unlike_restores_witness :
  exists p2,
    Posts.findById
      (fst (Posts.likePost (fst (Posts.likePost Posts.feed 5000 (Some 7%nat) 0))
              6000 (Some 7%nat) 0))
      0 = Some p2 /\
    Posts.likes p2 = [2; 3]%nat.
Proof.
  assert (N : ~ In 7%nat (Posts.likes Posts.hello)).
  { simpl. intros [H|[H|[]]]; discriminate. }
  destruct (like_then_unlike_restores Posts.feed 5000 6000 7 0 Posts.hello
              eq_refl eq_refl N) as (p2 & H1 & H2 & _).
  exists p2. split; [exact H1|exact H2].
Defined.

Lemma length_filter_others (u : ObjectId) (l : list ObjectId) :
  NoDup l -> In u l ->
  List.length l = S (List.length (filter (fun id => negb (id =? u)%nat) l)).
Proof.
  induction l as [|x l IH]; simpl; intros N H; [contradiction|].
  inversion N as [|? ? Hx N']; subst.
  destruct (x =? u)%nat eqn:E; simpl.
  - apply Nat.eqb_eq in E. subst x.
    rewrite filter_others_absent by exact Hx. reflexivity.
  - apply Nat.eqb_neq in E. destruct H as [H|H]; [contradiction|].
    rewrite (IH N' H). reflexivity.
Qed.

(** When no account appears twice among the likes of a post, none does
    after [likePost], and the like count moves by exactly one: down when
    the caller had liked the post, up when they had not. *)
Theorem likes_stay_duplicate_free (st : list Posts.Post) (now : Z)
    (u i : ObjectId) (p : Posts.Post) :
  Posts.findById st i = Some p -> Posts.validateSync p = true ->
  NoDup (Posts.likes p) ->
  exists p',
    Posts.findById (fst (Posts.likePost st now (Some u) i)) i = Some p' /\
    NoDup (Posts.likes p') /\
    if existsb (fun id => (id =? u)%nat) (Posts.likes p)
    then Posts.likeCount p = S (Posts.likeCount p')
    else Posts.likeCount p' = S (Posts.likeCount p).
Proof.
  intros F V N. destruct (findById_id st i p F) as [Hi _].
  rewrite (likePost_found st now u i p F V). cbv zeta. cbn [fst].
  eexists. split.
  - erewrite findById_replace; [|exact F|exact Hi].
    rewrite Nat.eqb_refl. reflexivity.
  - unfold Posts.likeCount. cbn [Posts.likes].
    destruct (existsb (fun id => (id =? u)%nat) (Posts.likes p)) eqn:L.
    + apply existsb_eq_In in L. unfold Posts.likes_of_others. split.
      * apply NoDup_filter, N.
      * apply length_filter_others; assumption.
    + assert (A : ~ In u (Posts.likes p)).
      { intros H. apply existsb_eq_In in H. congruence. }
      split.
      * apply (Permutation_NoDup (l := u :: Posts.likes p)).
        -- apply Permutation_cons_append.
        -- constructor; assumption.
      * rewrite length_app. simpl. lia.
Qed.

Lemma likes_stay_duplicate_free_witness :
  exists p',
    Posts.findById (fst (Posts.likePost Posts.feed 5000 (Some 3%nat) 0)) 0
    = Some p' /\
    NoDup (Posts.likes p') /\ Posts.likeCount Posts.hello = S (Posts.likeCount p').
Proof.
  assert (N : NoDup (Posts.likes Posts.hello)).
  { simpl. repeat constructor; simpl; intuition discriminate. }
  destruct (likes_stay_duplicate_free Posts.feed 5000 3 0 Posts.hello
              eq_refl eq_refl N) as (p' & H1 & H2 & H3).
  exists p'. split; [exact H1|]. split; [exact H2|exact H3].
Defined.

Lemma findById_remove (st : list Posts.Post) (i j : ObjectId) :
  Posts.wf st ->
  Posts.findById (Posts.remove_post i st) j
  = if (j =? i)%nat then None else Posts.findById st j.
Proof.
  unfold Posts.wf, Posts.findById. induction st as [|y st IH]; simpl; intros N.
  - destruct (j =? i)%nat; reflexivity.
  - inversion N as [|? ? Hy N']; subst.
    destruct (Posts._id y =? i)%nat eqn:E; simpl.
    + apply Nat.eqb_eq in E. subst i.
      destruct (j =? Posts._id y)%nat eqn:Ej.
      * apply Nat.eqb_eq in Ej. subst j.
        destruct (find (fun p => (Posts._id p =? Posts._id y)%nat) st) eqn:Fd;
          [|reflexivity].
        apply find_some in Fd as [Hin Hid]. apply Nat.eqb_eq in Hid.
        exfalso. apply Hy. rewrite <- Hid. apply in_map, Hin.
      * rewrite Nat.eqb_sym, Ej. reflexivity.
    + rewrite (IH N'). destruct (Posts._id y =? j)%nat eqn:Ej; [|reflexivity].
      apply Nat.eqb_eq in Ej. subst j. rewrite E. reflexivity.
Qed.

(** [deletePost] removes a post for its author and for nobody else.  The
    answer is 200 exactly when the post exists and the caller is its
    author; then the answer carries the post, the post is gone and every
    other post is as it was.  Otherwise the collection is unchanged, and
    the answer tells an existing post (401 without a caller, 403 for
    another account) from a missing one (404, also without a caller). *)
Theorem only_the_author_deletes_a_post (st : list Posts.Post)
    (caller : option ObjectId) (i : ObjectId) :
  Posts.wf st ->
  (Posts.status (snd (Posts.deletePost st caller i)) = 200%nat <->
   exists p, Posts.findById st i = Some p /\ caller = Some (Posts.author p)) /\
  (Posts.status (snd (Posts.deletePost st caller i)) = 200%nat ->
   Posts.deletedPost (snd (Posts.deletePost st caller i)) = Posts.findById st i /\
   Posts.findById (fst (Posts.deletePost st caller i)) i = None /\
   forall j, j <> i ->
     Posts.findById (fst (Posts.deletePost st caller i)) j = Posts.findById st j) /\
  (Posts.status (snd (Posts.deletePost st caller i)) <> 200%nat ->
   fst (Posts.deletePost st caller i) = st) /\
  (Posts.findById st i = None ->
   Posts.status (snd (Posts.deletePost st caller i)) = 404%nat) /\
  (forall p, Posts.findById st i = Some p -> caller <> Some (Posts.author p) ->
   Posts.status (snd (Posts.deletePost st caller i))
   = match caller with None => 401%nat | Some _ => 403%nat end).
Proof.
  intros W. unfold Posts.deletePost, Posts.findByIdAndDelete.
  destruct (Posts.findById st i) as [p|] eqn:F.
  2:{ simpl. repeat split; intros; try discriminate; try reflexivity;
        try congruence.
      destruct H as (q & Hq & _). discriminate. }
  destruct caller as [u|].
  2:{ simpl. repeat split; intros; try discriminate; try reflexivity;
        try congruence.
      destruct H as (q & _ & Hq). discriminate. }
  destruct (Posts.author p =? u)%nat eqn:A; simpl.
  - apply Nat.eqb_eq in A. subst u.
    split; [split; [intros _; exists p; auto|reflexivity]|].
    split; [intros _|split; [intros H; congruence|split; [discriminate|]]].
    + split; [reflexivity|]. split.
      * rewrite (findById_remove st i i W), Nat.eqb_refl. reflexivity.
      * intros j Hj. rewrite (findById_remove st i j W).
        apply Nat.eqb_neq in Hj. rewrite Hj. reflexivity.
    + intros q Hq N. inversion Hq; subst q. congruence.
  - apply Nat.eqb_neq in A.
    split; [split; [discriminate|]|].
    + intros (q & Hq & Hc). inversion Hq; subst q. congruence.
    + split; [discriminate|]. split; [reflexivity|]. split; [discriminate|].
      intros q Hq N. reflexivity.
Qed.

Lemma only_the_author_deletes_a_post_witness :
  Posts.status (snd (Posts.deletePost Posts.feed (Some 2%nat) 0)) = 403%nat /\
  Posts.status (snd (Posts.deletePost Posts.feed (Some 2%nat) 5)) = 404%nat.
Proof.
  assert (W : Posts.wf Posts.feed).
  { unfold Posts.wf. simpl. repeat constructor; simpl; intuition discriminate. }
  assert (N : Some 2%nat <> Some (Posts.author Posts.hello)) by discriminate.
  split.
  - destruct (only_the_author_deletes_a_post Posts.feed (Some 2%nat) 0 W)
      as (_ & _ & _ & _ & H).
    exact (H Posts.hello eq_refl N).
  - destruct (only_the_author_deletes_a_post Posts.feed (Some 2%nat) 5 W)
      as (_ & _ & _ & H & _).
    exact (H eq_refl).
Defined.
